(** * Items API: the cache-aside read path and its invalidation

    A shallow embedding of [backend/src/routes/items.js]: the five route
    handlers of the items router, together with the two collaborators they
    talk to (the PostgreSQL pool and the Redis client), written as explicit
    state passing over a [World] that holds the [items] table, its id
    sequence and the Redis keyspace.

    Logging ([logger]) and the Prometheus counters ([cacheHits],
    [cacheMisses], [dbQueryDuration]) are left out: no response, no row and
    no cache entry depends on them. *)

From Stdlib Require Import ZArith Lia Ascii String.
From stdpp Require Import base strings list gmap pretty.

Open Scope string_scope.
Open Scope list_scope.
Open Scope Z_scope.

(** ** JavaScript primitives used by the router *)

Module Js.

(** The ASCII part of the [\s] character class / [StrWhiteSpaceChar]. *)
Definition is_space (c : ascii) : bool :=
  let n := nat_of_ascii c in
  ((9 <=? n)%nat && (n <=? 13)%nat) || (n =? 32)%nat.

Definition digit_value (c : ascii) : option Z :=
  let n := Z.of_nat (nat_of_ascii c) in
  if (48 <=? n) && (n <=? 57) then Some (n - 48) else None.

Definition hex_value (c : ascii) : option Z :=
  let n := Z.of_nat (nat_of_ascii c) in
  if (48 <=? n) && (n <=? 57) then Some (n - 48)
  else if (97 <=? n) && (n <=? 102) then Some (n - 87)
  else if (65 <=? n) && (n <=? 70) then Some (n - 55)
  else None.

Fixpoint skip_spaces (s : string) : string :=
  match s with
  | String c s' => if is_space c then skip_spaces s' else s
  | EmptyString => EmptyString
  end.

(** Longest prefix of digits in the given radix, accumulated left to
    right; [None] when the prefix is empty. *)
Fixpoint digits_prefix (value : ascii -> option Z) (radix : Z)
         (acc : option Z) (s : string) : option Z :=
  match s with
  | String c s' =>
      match value c with
      | Some d =>
          digits_prefix value radix
            (Some (match acc with Some a => a * radix + d | None => d end)) s'
      | None => acc
      end
  | EmptyString => acc
  end.

Definition strip_sign (s : string) : Z * string :=
  match s with
  | String "-" s' => (-1, s')
  | String "+" s' => (1, s')
  | _ => (1, s)
  end.

(** [parseInt(string)] with no radix argument: leading white space is
    skipped, one sign is read, a [0x]/[0X] prefix selects radix 16, and
    the longest digit prefix is converted. [None] is [NaN]. The result is
    kept as the exact integer: [parseInt] returns the nearest double, which
    is that integer up to 2^53 in absolute value. *)
Definition parseInt_string (s : string) : option Z :=
  let '(sign, s1) := strip_sign (skip_spaces s) in
  match s1 with
  | String "0" (String "x" s2) | String "0" (String "X" s2) =>
      (λ n, sign * n) <$> digits_prefix hex_value 16 None s2
  | _ => (λ n, sign * n) <$> digits_prefix digit_value 10 None s1
  end.

(** A query parameter is a string or [undefined]; [parseInt(undefined)]
    reads the text "undefined" and is [NaN]. *)
Definition parseInt (v : option string) : option Z :=
  match v with
  | Some s => parseInt_string s
  | None => None
  end.

(** [x || d] on a number: [NaN] and [0] are falsy. *)
Definition or_default (x : option Z) (d : Z) : Z :=
  match x with
  | Some n => if n =? 0 then d else n
  | None => d
  end.

(** [String.prototype.length] on ASCII text. *)
Definition length (s : string) : Z := Z.of_nat (String.length s).

End Js.

(** ** JSON documents *)

#[local] Unset Elimination Schemes.
Inductive Json : Type :=
| JNull
| JBool (b : bool)
| JNum (n : Z)
| JStr (s : string)
| JArr (elems : list Json)
| JObj (fields : list (string * Json)).
#[local] Set Elimination Schemes.

(** An object literal, as the ordered list of its own properties. *)
Abbreviation JObject := (list (string * Json)).

Fixpoint obj_get (k : string) (o : JObject) : option Json :=
  match o with
  | [] => None
  | (k', v) :: o' => if String.eqb k k' then Some v else obj_get k o'
  end.

(** Assignment [o[k] = v]: an existing property keeps its position. *)
Fixpoint obj_set (k : string) (v : Json) (o : JObject) : JObject :=
  match o with
  | [] => [(k, v)]
  | (k', v') :: o' =>
      if String.eqb k k' then (k, v) :: o' else (k', v') :: obj_set k v o'
  end.

(** The object literal [{ ...head, ...o }]: the properties of [o] are
    assigned in order onto the properties written before the spread. *)
Definition spread (head o : JObject) : JObject :=
  fold_left (λ acc kv, obj_set kv.1 kv.2 acc) o head.

(** The [source] property of a response body, when it has one. *)
Definition provenance (b : Json) : option Json :=
  match b with
  | JObj o => obj_get "source" o
  | _ => None
  end.

(** ** Integer text

    Text of the shape [[-+]?[0-9]+] read as a decimal integer: what
    [isInt] accepts (leading zeroes allowed, its default) and what
    PostgreSQL's integer input reads from a text parameter. *)

Definition signed_decimal (s : string) : option Z :=
  let '(sign, s1) := Js.strip_sign s in
  (fix all_digits (acc : option Z) (t : string) : option Z :=
     match t with
     | String c t' =>
         match Js.digit_value c with
         | Some d =>
             all_digits
               (Some (match acc with Some a => a * 10 + d | None => d end)) t'
         | None => None
         end
     | EmptyString => (λ n, sign * n) <$> acc
     end) None s1.

(** ** express-validator chains

    The sanitizers and validators the router attaches to its routes. A
    validator reads the field as text; a missing field reads as the empty
    text. *)

Module Validator.

Fixpoint rtrim (s : string) : string :=
  match s with
  | String c s' =>
      match rtrim s' with
      | EmptyString => if Js.is_space c then EmptyString else String c EmptyString
      | t => String c t
      end
  | EmptyString => EmptyString
  end.

(** [.trim()]: white space removed on both sides. *)
Definition trim (s : string) : string := rtrim (Js.skip_spaces s).

(** [.notEmpty()] *)
Definition notEmpty (s : string) : bool :=
  negb (String.eqb s EmptyString).

(** [.isLength({ max })] *)
Definition isLength_max (max : Z) (s : string) : bool :=
  Js.length s <=? max.

(** [.isInt({ min: 1 })] *)
Definition isInt_min1 (s : string) : bool :=
  match signed_decimal s with
  | Some n => 1 <=? n
  | None => false
  end.

(** One entry of [errors.array()]: the message and the field it is about. *)
Definition error_entry (location path msg : string) : Json :=
  JObj [("msg", JStr msg); ("path", JStr path); ("location", JStr location)].

End Validator.

(** ** Rows, cache entries and the world *)

(** A row of the [items] table. Timestamps are instants in milliseconds. *)
Module Item.
Record t : Type := mk {
  id : Z;
  name : string;
  description : option string;
  created_at : Z;
  updated_at : Z
}.
End Item.
Abbreviation Item := Item.t.

(** A row as it is written to a response or to the cache ([JSON.stringify]
    of [result.rows[0]]); a [Date] column is kept as its instant. *)
Definition item_json (r : Item) : JObject :=
  [ ("id", JNum (Item.id r));
    ("name", JStr (Item.name r));
    ("description", match Item.description r with Some d => JStr d | None => JNull end);
    ("created_at", JNum (Item.created_at r));
    ("updated_at", JNum (Item.updated_at r)) ].

(** A Redis string value written by [setEx]: the JSON object that the
    stored text denotes ([JSON.parse] of it), and the instant at which the
    key expires. *)
Record Entry : Type := mkEntry {
  doc : JObject;
  expires_at : Z
}.

(** The table in scan order, the next value of [items_id_seq], and the
    Redis keyspace. *)
Record World : Type := mkWorld {
  items : list Item;
  items_id_seq : Z;
  redis : gmap string Entry
}.

(** What one request meets: the instant it is served at, and which
    collaborator calls succeed (a [false] makes that call reject). *)
Record Env : Type := mkEnv {
  now : Z;
  pg_ok : bool;
  get_ok : bool;
  setEx_ok : bool;
  keys_ok : bool;
  del_ok : bool
}.

(** ** Awaited calls: state passing with rejection *)

Inductive Outcome (A : Type) : Type :=
| Fulfilled (a : A)
| Rejected (err : string).
Arguments Fulfilled {A} a.
Arguments Rejected {A} err.

Definition Async (A : Type) : Type := World -> Outcome A * World.

#[export] Instance async_ret : MRet Async :=
  λ A a w, (Fulfilled a, w).

#[export] Instance async_bind : MBind Async :=
  λ A B k m w,
    match m w with
    | (Fulfilled a, w') => k a w'
    | (Rejected err, w') => (Rejected err, w')
    end.

Definition reject {A : Type} (err : string) : Async A :=
  λ w, (Rejected err, w).

(** [try { body } catch (err) { handler }] *)
Definition try_catch {A : Type} (body : Async A) (handler : string -> Async A) : Async A :=
  λ w,
    match body w with
    | (Fulfilled a, w') => (Fulfilled a, w')
    | (Rejected err, w') => handler err w'
    end.

(** ** The PostgreSQL pool

    One function per statement the router sends through [pool.query]. A
    query rejects when the store is unreachable ([pg_ok] is [false]) or
    when PostgreSQL raises an error for it. *)

Module pool.

Definition unreachable : string := "connect ECONNREFUSED".

(** Input conversion of a text parameter compared with the [SERIAL]
    column [id]: a 32-bit signed integer, or an error. *)
Definition int4_in (text : string) : option Z :=
  match signed_decimal text with
  | Some n => if (-2147483648 <=? n) && (n <=? 2147483647) then Some n else None
  | None => None
  end.

(** [ORDER BY created_at DESC]: rows come out with non-increasing
    [created_at]. SQL does not say in which order rows with the same
    [created_at] come out; here they keep the scan order of the table. *)
Fixpoint insert_by_created_at_desc (r : Item) (rows : list Item) : list Item :=
  match rows with
  | [] => [r]
  | x :: rows' =>
      if Item.created_at x <=? Item.created_at r then r :: rows
      else x :: insert_by_created_at_desc r rows'
  end.

Definition order_by_created_at_desc (rows : list Item) : list Item :=
  foldr insert_by_created_at_desc [] rows.

(** [SELECT COUNT( * ) FROM items], read with [parseInt]: node-postgres
    hands the count over as decimal text and [parseInt] reads it back;
    the number itself is kept here. *)
Definition count_items (e : Env) : Async Z :=
  λ w,
    if pg_ok e then (Fulfilled (Z.of_nat (length (items w))), w)
    else (Rejected unreachable, w).

(** [SELECT * FROM items ORDER BY created_at DESC LIMIT $1 OFFSET $2];
    PostgreSQL rejects a negative [LIMIT] and a negative [OFFSET]. The
    parameters are taken as the integers themselves, which is what the
    driver sends for a JavaScript number up to 2^53; a larger offset
    reaches the store rounded, and from 2^63 on is refused as a [bigint],
    which is left out here. *)
Definition select_page (e : Env) (limit offset : Z) : Async (list Item) :=
  λ w,
    if negb (pg_ok e) then (Rejected unreachable, w)
    else if limit <? 0 then (Rejected "LIMIT must not be negative", w)
    else if offset <? 0 then (Rejected "OFFSET must not be negative", w)
    else
      (Fulfilled (take (Z.to_nat limit)
                    (drop (Z.to_nat offset) (order_by_created_at_desc (items w)))),
       w).

(** [SELECT * FROM items WHERE id = $1] *)
Definition select_by_id (e : Env) (id_text : string) : Async (list Item) :=
  λ w,
    if negb (pg_ok e) then (Rejected unreachable, w)
    else
      match int4_in id_text with
      | None => (Rejected "invalid input for type integer", w)
      | Some n => (Fulfilled (filter (λ r, Item.id r = n) (items w)), w)
      end.

(** [INSERT INTO items (name, description) VALUES ($1, $2) RETURNING *]:
    [id] is drawn from the sequence, both timestamps default to the
    current instant, an [undefined] description is stored as [NULL]. The
    sequence keeps its advance when the primary key rejects the row. *)
Definition insert_item (e : Env) (name : string) (description : option string)
  : Async (list Item) :=
  λ w,
    if negb (pg_ok e) then (Rejected unreachable, w)
    else
      let next := items_id_seq w in
      if 2147483647 <? next then (Rejected "nextval: reached maximum value of sequence", w)
      else
        let w1 := mkWorld (items w) (next + 1) (redis w) in
        if bool_decide (Exists (λ r, Item.id r = next) (items w))
        then (Rejected "duplicate key value violates unique constraint", w1)
        else
          let r := Item.mk next name description (now e) (now e) in
          (Fulfilled [r], mkWorld (items w ++ [r]) (next + 1) (redis w)).

Definition set_columns (e : Env) (name : string) (description : option string)
           (r : Item) : Item :=
  Item.mk (Item.id r) name description (Item.created_at r) (now e).

(** [UPDATE items SET name = $1, description = $2, updated_at = NOW()
    WHERE id = $3 RETURNING *] *)
Definition update_by_id (e : Env) (name : string) (description : option string)
           (id_text : string) : Async (list Item) :=
  λ w,
    if negb (pg_ok e) then (Rejected unreachable, w)
    else
      match int4_in id_text with
      | None => (Rejected "invalid input for type integer", w)
      | Some n =>
          (Fulfilled (set_columns e name description <$> filter (λ r, Item.id r = n) (items w)),
           mkWorld
             ((λ r, if decide (Item.id r = n) then set_columns e name description r else r)
                <$> items w)
             (items_id_seq w) (redis w))
      end.

(** [DELETE FROM items WHERE id = $1 RETURNING *] *)
Definition delete_by_id (e : Env) (id_text : string) : Async (list Item) :=
  λ w,
    if negb (pg_ok e) then (Rejected unreachable, w)
    else
      match int4_in id_text with
      | None => (Rejected "invalid input for type integer", w)
      | Some n =>
          (Fulfilled (filter (λ r, Item.id r = n) (items w)),
           mkWorld (filter (λ r, Item.id r ≠ n) (items w)) (items_id_seq w) (redis w))
      end.

End pool.

(** ** The Redis client *)

Module redisClient.

Definition unreachable : string := "The client is closed".

(** Glob matching of [KEYS]: [*] matches any run of characters, [?] any
    one character, every other character itself (the router's one
    pattern, [items:*], uses no bracket class and no escape). *)
Fixpoint glob (pattern key : string) : bool :=
  match pattern with
  | EmptyString => match key with EmptyString => true | _ => false end
  | String p pattern' =>
      if Ascii.eqb p "*" then
        (fix star (k : string) : bool :=
           glob pattern' k ||
           match k with
           | String _ k' => star k'
           | EmptyString => false
           end) key
      else
        match key with
        | String c key' =>
            (Ascii.eqb p "?" || Ascii.eqb p c) && glob pattern' key'
        | EmptyString => false
        end
  end.

(** A key is visible while its expiry instant lies ahead. *)
Definition live (e : Env) (en : Entry) : bool := now e <? expires_at en.

Definition read (e : Env) (k : string) (w : World) : option JObject :=
  match redis w !! k with
  | Some en => if live e en then Some (doc en) else None
  | None => None
  end.

(** [GET key]: the stored document, or [null]. *)
Definition get (e : Env) (k : string) : Async (option JObject) :=
  λ w,
    if get_ok e then (Fulfilled (read e k w), w)
    else (Rejected unreachable, w).

(** [SETEX key seconds value] *)
Definition setEx (e : Env) (k : string) (seconds : Z) (value : JObject) : Async unit :=
  λ w,
    if setEx_ok e
    then (Fulfilled (),
          mkWorld (items w) (items_id_seq w)
            (<[k := mkEntry value (now e + seconds * 1000)]> (redis w)))
    else (Rejected unreachable, w).

(** [KEYS pattern]: the visible keys that match. *)
Definition keys (e : Env) (pattern : string) : Async (list string) :=
  λ w,
    if keys_ok e
    then (Fulfilled
            (fst <$> filter (λ kv, glob pattern kv.1 && live e kv.2 = true)
                       (map_to_list (redis w))),
          w)
    else (Rejected unreachable, w).

(** [DEL key ...], for one key or an array of keys. *)
Definition del (e : Env) (ks : list string) : Async unit :=
  λ w,
    if del_ok e
    then (Fulfilled (),
          mkWorld (items w) (items_id_seq w) (foldr delete (redis w) ks))
    else (Rejected unreachable, w).

End redisClient.

(** ** Requests and responses *)

(** [req.query] of the listing route. *)
Record ListQuery : Type := mkListQuery {
  q_limit : option string;
  q_offset : option string
}.

(** [req.body] of the create and update routes; [None] is a missing
    property. *)
Record ItemBody : Type := mkItemBody {
  b_name : option string;
  b_description : option string
}.

(** [res.status(status).json(body)] *)
Record Response : Type := mkResponse {
  status : Z;
  body : Json
}.

Definition internal_server_error : Response :=
  mkResponse 500 (JObj [("error", JStr "Internal server error")]).

Definition item_not_found : Response :=
  mkResponse 404 (JObj [("error", JStr "Item not found")]).

(** ** The validation chains and the [validate] middleware *)

(** [param('id').isInt({ min: 1 })] *)
Definition param_id (msg : string) (id : string) : list Json :=
  if Validator.isInt_min1 id then []
  else [Validator.error_entry "params" "id" msg].

(** [body('name').trim().notEmpty().withMessage(msg).isLength({ max: 255 })]:
    the trimmed value that replaces [req.body.name], and the errors. *)
Definition body_name (msg : string) (v : option string) : string * list Json :=
  let name := Validator.trim (default EmptyString v) in
  (name,
   ((if Validator.notEmpty name then []
     else [Validator.error_entry "body" "name" msg])
    ++
    (if Validator.isLength_max 255 name then []
     else [Validator.error_entry "body" "name" "Invalid value"]))%list).

(** [body('description').optional().trim().isLength({ max: 1000 })]: a
    missing description is left alone. *)
Definition body_description (v : option string) : option string * list Json :=
  match v with
  | None => (None, [])
  | Some d =>
      let description := Validator.trim d in
      (Some description,
       if Validator.isLength_max 1000 description then []
       else [Validator.error_entry "body" "description" "Invalid value"])
  end.

(** The values that replace [req.body.name] and [req.body.description]
    once the sanitizers have run, and the errors the two body chains leave. *)
Definition sanitized_name (req : ItemBody) : string :=
  Validator.trim (default EmptyString (b_name req)).

Definition sanitized_description (req : ItemBody) : option string :=
  Validator.trim <$> b_description req.

Definition body_errors (msg : string) (req : ItemBody) : list Json :=
  ((body_name msg (b_name req)).2 ++ (body_description (b_description req)).2)%list.

(** The errors the three chains of the update route leave. *)
Definition put_errors (id : string) (req : ItemBody) : list Json :=
  (param_id "Invalid value" id ++ body_errors "Invalid value" req)%list.

(** [validate]: answers 400 when the chains left errors, otherwise hands
    over to the route handler. *)
Definition validate (errors : list Json) (next : Async Response) : Async Response :=
  match errors with
  | [] => next
  | _ =>
      mret (mkResponse 400
              (JObj [("error", JStr "Validation failed"); ("details", JArr errors)]))
  end.

(** ** The routes *)

Definition items_limit (query : ListQuery) : Z :=
  Z.min (Js.or_default (Js.parseInt (q_limit query)) 50) 100.

Definition items_offset (query : ListQuery) : Z :=
  Js.or_default (Js.parseInt (q_offset query)) 0.

(** [`items:${limit}:${offset}`] *)
Definition items_cacheKey (limit offset : Z) : string :=
  "items:" +:+ pretty limit +:+ ":" +:+ pretty offset.

(** [`item:${id}`] *)
Definition item_cacheKey (id : string) : string :=
  "item:" +:+ id.

(** The body [{ count, data }] built on a listing miss. *)
Definition page_json (count : Z) (rows : list Item) : JObject :=
  [("count", JNum count); ("data", JArr ((λ r, JObj (item_json r)) <$> rows))].

(** The block under [// Invalidate list cache], which the three writes
    share: the listing keys are looked up and, when there are any, deleted
    in one call. *)
Definition invalidate_list_cache (e : Env) : Async unit :=
  keys ← redisClient.keys e "items:*";
  match keys with
  | [] => mret ()
  | _ => redisClient.del e keys
  end.

(** The block under [// Invalidate caches] of the update and delete
    routes: the point key first, then the listing keys. *)
Definition invalidate_caches (e : Env) (id : string) : Async unit :=
  redisClient.del e [item_cacheKey id];;
  invalidate_list_cache e.

(** [router.get('/')] *)
Definition get_items (e : Env) (query : ListQuery) : Async Response :=
  try_catch
    (let limit := items_limit query in
     let offset := items_offset query in
     let cacheKey := items_cacheKey limit offset in
     cached ← redisClient.get e cacheKey;
     match cached with
     | Some page =>
         mret (mkResponse 200 (JObj (spread [("source", JStr "cache")] page)))
     | None =>
         count ← pool.count_items e;
         rows ← pool.select_page e limit offset;
         let response := page_json count rows in
         redisClient.setEx e cacheKey 60 response;;
         mret (mkResponse 200 (JObj (spread [("source", JStr "database")] response)))
     end)
    (λ _, mret internal_server_error).

(** [router.get('/:id')] *)
Definition get_item (e : Env) (id : string) : Async Response :=
  validate (param_id "ID must be a positive integer" id)
    (try_catch
       (let cacheKey := item_cacheKey id in
        cached ← redisClient.get e cacheKey;
        match cached with
        | Some row => mret (mkResponse 200 (JObj row))
        | None =>
            rows ← pool.select_by_id e id;
            match rows with
            | [] => mret item_not_found
            | row :: _ =>
                redisClient.setEx e cacheKey 300 (item_json row);;
                mret (mkResponse 200 (JObj (item_json row)))
            end
        end)
       (λ _, mret internal_server_error)).

(** [router.post('/')]. [result.rows[0]] of an empty result is
    [undefined], and reading its [id] for the log line throws. *)
Definition post_item (e : Env) (req : ItemBody) : Async Response :=
  let '(name, name_errors) := body_name "Name is required" (b_name req) in
  let '(description, description_errors) := body_description (b_description req) in
  validate (name_errors ++ description_errors)%list
    (try_catch
       (result ← pool.insert_item e name description;
        invalidate_list_cache e;;
        match result with
        | row :: _ => mret (mkResponse 201 (JObj (item_json row)))
        | [] => reject "Cannot read properties of undefined"
        end)
       (λ _, mret internal_server_error)).

(** [router.put('/:id')] *)
Definition put_item (e : Env) (id : string) (req : ItemBody) : Async Response :=
  let '(name, name_errors) := body_name "Invalid value" (b_name req) in
  let '(description, description_errors) := body_description (b_description req) in
  validate (param_id "Invalid value" id ++ name_errors ++ description_errors)%list
    (try_catch
       (result ← pool.update_by_id e name description id;
        match result with
        | [] => mret item_not_found
        | row :: _ =>
            invalidate_caches e id;;
            mret (mkResponse 200 (JObj (item_json row)))
        end)
       (λ _, mret internal_server_error)).

(** [router.delete('/:id')] *)
Definition delete_item (e : Env) (id : string) : Async Response :=
  validate (param_id "Invalid value" id)
    (try_catch
       (result ← pool.delete_by_id e id;
        match result with
        | [] => mret item_not_found
        | row :: _ =>
            invalidate_caches e id;;
            mret (mkResponse 200
                    (JObj [("message", JStr "Item deleted successfully");
                           ("item", JObj (item_json row))]))
        end)
       (λ _, mret internal_server_error)).

(** A request to the router, and the worlds a run of requests leads to. *)
Inductive Request : Type :=
| GetItems (query : ListQuery)
| GetItem (id : string)
| PostItem (req : ItemBody)
| PutItem (id : string) (req : ItemBody)
| DeleteItem (id : string).

Definition handle (e : Env) (rq : Request) : Async Response :=
  match rq with
  | GetItems query => get_items e query
  | GetItem id => get_item e id
  | PostItem req => post_item e req
  | PutItem id req => put_item e id req
  | DeleteItem id => delete_item e id
  end.

(** The world after serving the requests one after the other. *)
Fixpoint serve (trace : list (Env * Request)) (w : World) : World :=
  match trace with
  | [] => w
  | (e, rq) :: trace' => serve trace' (handle e rq w).2
  end.

(** ** The ordering of a page *)

(** Newest first: [created_at] never increases along the page. *)
Fixpoint newest_first (rows : list Item) : bool :=
  match rows with
  | a :: (b :: _) as rest =>
      (Item.created_at b <=? Item.created_at a) && newest_first rest
  | _ => true
  end.

(** Newest first, and among rows created at the same instant the smaller
    [id] first. *)
Fixpoint newest_first_then_id (rows : list Item) : bool :=
  match rows with
  | a :: (b :: _) as rest =>
      ((Item.created_at b <? Item.created_at a)
       || ((Item.created_at b =? Item.created_at a) && (Item.id a <? Item.id b)))
      && newest_first_then_id rest
  | _ => true
  end.

(** ** Sample requests and worlds *)

(** White space only (or no character at all). *)
Fixpoint blank (s : string) : bool :=
  match s with
  | String c s' => Js.is_space c && blank s'
  | EmptyString => true
  end.

(** Both collaborators answer every call. *)
Definition all_up (t : Z) : Env := mkEnv t true true true true true.

(** The store answers, every Redis call rejects. *)
Definition cache_down (t : Z) : Env := mkEnv t true false false false false.

(** An empty table and an empty cache. *)
Definition fresh : World := mkWorld [] 1 ∅.

Definition item_A : Item := Item.mk 1 "A" (Some "d1") 1000 1000.

(** One row, nothing cached. *)
Definition one_row : World := mkWorld [item_A] 2 ∅.

(** Two rows created at the same instant, the row with the larger [id]
    first in scan order. *)
Definition tied_rows : World :=
  mkWorld [Item.mk 2 "B" None 1000 1000; Item.mk 1 "A" None 1000 1000] 3 ∅.

(** The store answers and so does Redis, except that every [DEL] rejects. *)
Definition del_down (t : Z) : Env := mkEnv t true true true true false.

(** The world after row 1 has been read (and so cached) and then deleted
    while [DEL] was failing. *)
Definition after_failed_invalidation : World :=
  serve [(all_up 2000, GetItem "1"); (del_down 3000, DeleteItem "1")] one_row.

(** One row, with the first page of the listing and the row itself
    cached. *)
Definition warm : World :=
  serve [(all_up 2000, GetItems (mkListQuery None None));
         (all_up 2100, GetItem "1")] one_row.

(** Every entry under a listing key holds a page [{ count, data }] whose
    rows are newest first. *)
Definition listing_entries_newest_first (w : World) : Prop :=
  ∀ k en,
    redis w !! k = Some en → redisClient.glob "items:*" k = true →
    ∃ count rows, doc en = page_json count rows ∧ newest_first rows = true.

(** ** The Redis client configuration ([config/redis.js]) *)

(** What a reconnect strategy hands back: a delay in milliseconds, or an
    error that ends the reconnecting. *)
Inductive Reconnect : Type :=
| RetryAfter (ms : Z)
| GiveUp (err : string).

(** [socket.reconnectStrategy] *)
Definition reconnectStrategy (retries : Z) : Reconnect :=
  if 10 <? retries then GiveUp "Max retries reached"
  else RetryAfter (Z.min (retries * 100) 3000).

(** ** The authentication middleware ([middleware/auth.js]) *)

Module Auth.

(** [String.prototype.split(sep)] for a one-character separator. *)
Fixpoint split (sep : ascii) (s : string) : list string :=
  match s with
  | EmptyString => [EmptyString]
  | String c s' =>
      if Ascii.eqb c sep then EmptyString :: split sep s'
      else
        match split sep s' with
        | piece :: pieces => String c piece :: pieces
        | [] => [String c EmptyString]
        end
  end.

(** What the middleware reads and writes of a request: the
    [authorization] header and [req.user]. *)
Record Req : Type := mkReq {
  authorization : option string;
  user : option Json
}.

(** A middleware either answers the request or calls [next()]. *)
Inductive Step : Type :=
| Respond (r : Response)
| Next (req : Req).

(** [authHeader && authHeader.split(' ')[1]]: [None] is [undefined]; an
    empty header is itself the (falsy) result. *)
Definition token (authHeader : option string) : option string :=
  match authHeader with
  | None => None
  | Some EmptyString => Some EmptyString
  | Some h => split " " h !! 1%nat
  end.

(** Truthiness of a value. *)
Definition truthy (v : Json) : bool :=
  match v with
  | JNull => false
  | JBool b => b
  | JNum n => negb (n =? 0)
  | JStr s => negb (String.eqb s EmptyString)
  | JArr _ | JObj _ => true
  end.

(** [req.user.role] of a truthy [req.user]: a property of an object,
    [undefined] on anything else. *)
Definition role (u : Json) : option Json :=
  match u with
  | JObj o => obj_get "role" o
  | _ => None
  end.

(** [roles.includes(x)], for role names given as strings. *)
Definition includes (roles : list string) (x : option Json) : bool :=
  match x with
  | Some (JStr s) => bool_decide (s ∈ roles)
  | _ => false
  end.

(** [process.env.JWT_SECRET || '...'] *)
Definition JWT_SECRET (env : option string) : string :=
  match env with
  | Some EmptyString | None => "your-super-secret-jwt-key-change-in-production"
  | Some s => s
  end.

Section Middleware.

(** [jwt.verify(token, secret)]: the decoded payload, or [None] when it
    throws. *)
Variable verify : string → string → option Json.

Definition authenticateToken (secret : string) (req : Req) : Step :=
  match token (authorization req) with
  | None | Some EmptyString =>
      Respond (mkResponse 401
                 (JObj [("error", JStr "Access denied");
                        ("message", JStr "No token provided")]))
  | Some t =>
      match verify t secret with
      | Some decoded => Next (mkReq (authorization req) (Some decoded))
      | None =>
          Respond (mkResponse 403
                     (JObj [("error", JStr "Invalid token");
                            ("message", JStr "Token is invalid or expired")]))
      end
  end.

Definition optionalAuth (secret : string) (req : Req) : Step :=
  match token (authorization req) with
  | None | Some EmptyString => Next req
  | Some t =>
      match verify t secret with
      | Some decoded => Next (mkReq (authorization req) (Some decoded))
      | None => Next req
      end
  end.

End Middleware.

Definition requireRole (roles : list string) (req : Req) : Step :=
  match user req with
  | Some u =>
      if truthy u then
        if includes roles (role u) then Next req
        else Respond (mkResponse 403
                        (JObj [("error", JStr "Forbidden");
                               ("message", JStr "Insufficient permissions")]))
      else Respond (mkResponse 401
                      (JObj [("error", JStr "Access denied");
                             ("message", JStr "Authentication required")]))
  | None =>
      Respond (mkResponse 401
                 (JObj [("error", JStr "Access denied");
                        ("message", JStr "Authentication required")]))
  end.

(** Two middlewares in a row: the second runs when the first calls
    [next()]. *)
Definition chain (first second : Req → Step) (req : Req) : Step :=
  match first req with
  | Respond r => Respond r
  | Next req' => second req'
  end.

(** No space in the text. *)
Fixpoint no_space (s : string) : bool :=
  match s with
  | EmptyString => true
  | String c s' => negb (Ascii.eqb c " ") && no_space s'
  end.

(** A sample verifier: the token [good] decodes to [payload], every other
    token is rejected. *)
Definition only (good : string) (payload : Json) (t secret : string) : option Json :=
  if String.eqb t good then Some payload else None.

End Auth.

(** ** The probes of the application ([src/index.js] of the backend) *)

Module Probes.

(** What a probe meets: the instant, the outcome of the store query and
    the outcome of [redisClient.ping()]. *)
Record Probe : Type := mkProbe {
  at_ : Z;
  select : Outcome unit;
  ping : Outcome string
}.

(** [app.get('/health')]. [startTime] is the instant the process started,
    [version] is [process.env.npm_package_version || '2.0.0']. Instants
    stand for the [Date] values. *)
Definition health (startTime : Z) (version : string) (p : Probe) : Response :=
  let uptime := (at_ p - startTime) / 1000 in
  let '(status1, services1) :=
    match select p with
    | Fulfilled _ =>
        ("healthy", [("postgres", JStr "connected"); ("postgres_time", JNum (at_ p))])
    | Rejected _ => ("degraded", [("postgres", JStr "disconnected")])
    end in
  let '(status2, services2) :=
    match ping p with
    | Fulfilled pong =>
        (status1,
         obj_set "redis"
           (JStr (if String.eqb pong "PONG" then "connected" else "disconnected"))
           services1)
    | Rejected _ =>
        ("degraded", obj_set "redis" (JStr "disconnected") services1)
    end in
  mkResponse (if String.eqb status2 "healthy" then 200 else 503)
    (JObj [("status", JStr status2);
           ("timestamp", JNum (at_ p));
           ("version", JStr version);
           ("uptime", JNum uptime);
           ("services", JObj services2)]).

(** [app.get('/ready')]: the ping is awaited only after the query has
    answered. *)
Definition ready (p : Probe) : Response :=
  match select p with
  | Rejected err =>
      mkResponse 503 (JObj [("ready", JBool false); ("error", JStr err)])
  | Fulfilled _ =>
      match ping p with
      | Rejected err =>
          mkResponse 503 (JObj [("ready", JBool false); ("error", JStr err)])
      | Fulfilled _ => mkResponse 200 (JObj [("ready", JBool true)])
      end
  end.

(** [app.get('/live')] *)
Definition live (startTime : Z) (p : Probe) : Response :=
  mkResponse 200
    (JObj [("alive", JBool true); ("uptime", JNum ((at_ p - startTime) / 1000))]).

(** One property of [health.services]. *)
Definition service (name : string) (r : Response) : option Json :=
  match body r with
  | JObj o =>
      match obj_get "services" o with
      | Some (JObj services) => obj_get name services
      | _ => None
      end
  | _ => None
  end.

End Probes.

(** ** The single-file application ([src/index.js] at the root)

    Its listing and delete routes and its health probe. It keeps one cache
    key, [items], holding the rows of the last listing, and talks to Redis
    only while the client exists and is open. *)

Module Railway.

(** The value under the key [items]: the rows that the stored text
    denotes, and the instant at which the key expires. *)
Record Cached : Type := mkCached {
  rows : list Item;
  expires : Z
}.

Record World : Type := mkWorld {
  items : list Item;
  cached_items : option Cached
}.

(** What one request meets: the instant, whether the store answers,
    whether [redisClient && redisClient.isOpen] holds, which Redis calls
    succeed, and the [message] of the error with which the store query of
    the request (no connection, or an id text that is no integer) and its
    Redis call reject when they do: the routes pass [err.message] on to the
    caller. *)
Record Env : Type := mkEnv {
  now : Z;
  pg_ok : bool;
  redis_open : bool;
  get_ok : bool;
  setEx_ok : bool;
  del_ok : bool;
  ping_ok : bool;
  pg_error : string;
  redis_error : string
}.

(** [res.status(500).json({ error: err.message })] *)
Definition server_error (err : string) : Response :=
  mkResponse 500 (JObj [("error", JStr err)]).

Definition rows_json (rs : list Item) : Json :=
  JArr ((λ r, JObj (item_json r)) <$> rs).

(** [GET items]: the rows, or [null] when the key is absent or expired. *)
Definition read (e : Env) (w : World) : option (list Item) :=
  match cached_items w with
  | Some c => if now e <? expires c then Some (rows c) else None
  | None => None
  end.

(** The store part of the listing route, from the query on. *)
Definition list_from_store (e : Env) (w : World) : Response * World :=
  if negb (pg_ok e) then (server_error (pg_error e), w)
  else
    let result := pool.order_by_created_at_desc (items w) in
    let answer :=
      mkResponse 200
        (JObj [("source", JStr "database");
               ("count", JNum (Z.of_nat (length result)));
               ("data", rows_json result)]) in
    if redis_open e then
      if setEx_ok e
      then (answer, mkWorld (items w) (Some (mkCached result (now e + 60 * 1000))))
      else (server_error (redis_error e), w)
    else (answer, w).

(** [app.get('/api/items')] *)
Definition get_items (e : Env) (w : World) : Response * World :=
  if redis_open e then
    if get_ok e then
      match read e w with
      | Some cached =>
          (mkResponse 200
             (JObj [("source", JStr "cache"); ("data", rows_json cached)]), w)
      | None => list_from_store e w
      end
    else (server_error (redis_error e), w)
  else list_from_store e w.

Section Delete.

(** PostgreSQL's conversion of the text of [req.params.id], which no
    validator has looked at, to the integer it is compared with; [None]
    when the conversion raises an error. *)
Variable int4_input : string → option Z.

(** [app.delete('/api/items/:id')] *)
Definition delete_item (e : Env) (id : string) (w : World) : Response * World :=
  if negb (pg_ok e) then (server_error (pg_error e), w)
  else
    match int4_input id with
    | None => (server_error (pg_error e), w)
    | Some n =>
        let w1 := mkWorld (filter (λ r, Item.id r ≠ n) (items w)) (cached_items w) in
        if redis_open e then
          if del_ok e
          then (mkResponse 200 (JObj [("message", JStr "Item deleted")]),
                mkWorld (items w1) None)
          else (server_error (redis_error e), w1)
        else (mkResponse 200 (JObj [("message", JStr "Item deleted")]), w1)
    end.

End Delete.

(** [app.get('/health')]: only the store query can degrade the status. *)
Definition health (startTime : Z) (e : Env) : Response :=
  let status := if pg_ok e then "healthy" else "degraded" in
  let services :=
    [("postgres", JStr (if pg_ok e then "connected" else "disconnected"));
     ("redis",
      JStr (if redis_open e
            then if ping_ok e then "connected" else "disconnected"
            else "not configured"))] in
  mkResponse (if pg_ok e then 200 else 503)
    (JObj [("status", JStr status);
           ("timestamp", JNum (now e));
           ("version", JStr "2.0.0");
           ("uptime", JNum ((now e - startTime) / 1000));
           ("services", JObj services)]).

(** Sample environments: everything answers; Redis closed; the ping
    fails. *)
Definition up (t : Z) : Env :=
  mkEnv t true true true true true true "connect ECONNREFUSED" "The client is closed".

Definition closed (t : Z) : Env :=
  mkEnv t true false true true true true "connect ECONNREFUSED" "The client is closed".

Definition no_ping (t : Z) : Env :=
  mkEnv t true true true true true false "connect ECONNREFUSED" "The client is closed".

(** The store is down and says so in its own words. *)
Definition store_down (t : Z) : Env :=
  mkEnv t false false true true true true "connect ECONNREFUSED 127.0.0.1:5432"
    "The client is closed".

End Railway.

(** ** Invariants of the table and of the cache *)

(** The primary key: no two rows share an [id], and the sequence is ahead
    of every [id] in the table. *)
Definition table_ok (w : World) : Prop :=
  NoDup (Item.id <$> items w)
  ∧ ∀ row, row ∈ items w → Item.id row < items_id_seq w.

(** Every entry under a point key holds a row whose [id] is the one the
    key names. *)
Definition point_entries_match (w : World) : Prop :=
  ∀ id en,
    redis w !! item_cacheKey id = Some en →
    ∃ row, doc en = item_json row ∧ pool.int4_in id = Some (Item.id row).

(** No entry expires later than five minutes after the instant [t], and
    no listing entry later than one minute after it. *)
Definition expiries_within (t : Z) (w : World) : Prop :=
  ∀ k en,
    redis w !! k = Some en →
    expires_at en ≤ t + 300 * 1000
    ∧ (redisClient.glob "items:*" k = true → expires_at en ≤ t + 60 * 1000).

(** The requests that change the table. *)
Definition is_write (rq : Request) : bool :=
  match rq with
  | GetItems _ | GetItem _ => false
  | PostItem _ | PutItem _ _ | DeleteItem _ => true
  end.

(** Unfolds the plumbing of awaited calls. *)
Ltac async_unfold :=
  unfold validate, try_catch, mbind, async_bind, mret, async_ret, reject in *.

(** * Facts about the collaborators *)

Section GlobFacts.

Lemma glob_star (k : string) : redisClient.glob "*" k = true.
Proof.
  induction k as [|c k IH]; [reflexivity|].
  simpl in *. exact IH.
Qed.

(** Every listing key matches the pattern the writes invalidate. *)
Lemma glob_items_cacheKey (limit offset : Z) :
  redisClient.glob "items:*" (items_cacheKey limit offset) = true.
Proof.
  unfold items_cacheKey.
  change ("items:" +:+ pretty limit +:+ ":" +:+ pretty offset)
    with (String "i" (String "t" (String "e" (String "m" (String "s"
            (String ":" (pretty limit +:+ ":" +:+ pretty offset))))))).
  generalize (pretty limit +:+ ":" +:+ pretty offset). intros rest.
  change (redisClient.glob "items:*"
            (String "i" (String "t" (String "e" (String "m" (String "s" (String ":" rest)))))))
    with (redisClient.glob "*" rest).
  apply glob_star.
Qed.

(** No point key does. *)
Lemma glob_item_cacheKey (id : string) :
  redisClient.glob "items:*" (item_cacheKey id) = false.
Proof. reflexivity. Qed.

End GlobFacts.

Section RedisFacts.

Implicit Types (m : gmap string Entry) (k : string) (ks : list string).

Lemma lookup_foldr_delete m ks k :
  foldr delete m ks !! k = if decide (k ∈ ks) then None else m !! k.
Proof.
  induction ks as [|k' ks IH]; cbn [foldr].
  - rewrite decide_False; [done | apply not_elem_of_nil].
  - destruct (decide (k' = k)) as [->|Hne].
    + rewrite lookup_delete_eq. rewrite decide_True; [done | left].
    + rewrite lookup_delete_ne by done. rewrite IH.
      destruct (decide (k ∈ ks)) as [Hin|Hnin].
      * rewrite decide_True; [done | by right].
      * rewrite decide_False; [done|].
        intros [?|?]%elem_of_cons; [congruence | done].
Qed.

Lemma elem_of_keys e pattern w ks w' k :
  redisClient.keys e pattern w = (Fulfilled ks, w') →
  k ∈ ks ↔ ∃ en, redis w !! k = Some en
                 ∧ redisClient.glob pattern k = true
                 ∧ redisClient.live e en = true.
Proof.
  unfold redisClient.keys. destruct (keys_ok e); [|discriminate].
  intros [= <- <-]. rewrite list_elem_of_fmap. split.
  - intros [[k0 en] [-> Hin]]. apply list_elem_of_filter in Hin as [Hp Hin].
    apply elem_of_map_to_list in Hin. simpl in *.
    apply andb_true_iff in Hp as [? ?]. eauto.
  - intros (en & Hk & Hg & Hl). exists (k, en). split; [done|].
    apply list_elem_of_filter. split.
    + simpl. by rewrite Hg, Hl.
    + by apply elem_of_map_to_list.
Qed.

End RedisFacts.

Section InvalidationFacts.

(** An expired entry stays expired. *)
Lemma live_mono (e e' : Env) (en : Entry) :
  now e ≤ now e' → redisClient.live e en = false → redisClient.live e' en = false.
Proof. unfold redisClient.live. intros ? ?%Z.ltb_ge. apply Z.ltb_ge. lia. Qed.

Lemma invalidate_list_cache_unfold (e : Env) (w : World) :
  invalidate_list_cache e w =
    match redisClient.keys e "items:*" w with
    | (Fulfilled [], w1) => (Fulfilled (), w1)
    | (Fulfilled ks, w1) => redisClient.del e ks w1
    | (Rejected err, w1) => (Rejected err, w1)
    end.
Proof.
  unfold invalidate_list_cache, mbind, async_bind, mret, async_ret.
  destruct (redisClient.keys e "items:*" w) as [[[|k ks]|err] w1]; reflexivity.
Qed.

(** The bulk invalidation leaves the table alone and can only remove
    keys that match the listing pattern. *)
Lemma invalidate_list_cache_frame (e : Env) (w w' : World) (o : Outcome ()) :
  invalidate_list_cache e w = (o, w') →
  items w' = items w ∧ items_id_seq w' = items_id_seq w
  ∧ ∀ k, redis w' !! k = redis w !! k
         ∨ (redis w' !! k = None ∧ redisClient.glob "items:*" k = true).
Proof.
  rewrite invalidate_list_cache_unfold.
  destruct (redisClient.keys e "items:*" w) as [[ks|err] w1] eqn:Hkeys.
  - pose proof (λ k, elem_of_keys e "items:*" w ks w1 k Hkeys) as Hmem.
    unfold redisClient.keys in Hkeys. destruct (keys_ok e); [|discriminate].
    injection Hkeys as Hks <-.
    destruct ks as [|k0 ks0]; [intros [= <- <-]; auto|].
    unfold redisClient.del. destruct (del_ok e); intros [= <- <-]; simpl; [|auto].
    repeat split; try done. intros k.
    change (delete k0 (foldr delete (redis w) ks0))
      with (foldr delete (redis w) (k0 :: ks0)).
    rewrite lookup_foldr_delete. case_decide as Hin; [|auto].
    right. split; [done|]. apply Hmem in Hin as (? & ? & ? & ?). done.
  - unfold redisClient.keys in Hkeys. destruct (keys_ok e); [discriminate|].
    injection Hkeys as _ <-. intros [= <- <-]. auto.
Qed.

(** Once it has completed, no listing entry is visible any more. *)
Lemma invalidate_list_cache_done (e : Env) (w w' : World) :
  invalidate_list_cache e w = (Fulfilled (), w') →
  ∀ k en, redisClient.glob "items:*" k = true →
          redis w' !! k = Some en → redisClient.live e en = false.
Proof.
  rewrite invalidate_list_cache_unfold.
  destruct (redisClient.keys e "items:*" w) as [[ks|err] w1] eqn:Hkeys; [|discriminate].
  pose proof (λ k, elem_of_keys e "items:*" w ks w1 k Hkeys) as Hmem.
  unfold redisClient.keys in Hkeys. destruct (keys_ok e); [|discriminate].
  injection Hkeys as Hks <-.
  destruct ks as [|k0 ks0].
  - intros [= <-] k en Hg Hk.
    destruct (redisClient.live e en) eqn:Hl; [|done].
    exfalso. eapply not_elem_of_nil. apply Hmem. eauto.
  - unfold redisClient.del. destruct (del_ok e); [|discriminate].
    intros [= <-] k en Hg. simpl.
    change (delete k0 (foldr delete (redis w) ks0))
      with (foldr delete (redis w) (k0 :: ks0)).
    rewrite lookup_foldr_delete. case_decide as Hin; [done|].
    intros Hk. destruct (redisClient.live e en) eqn:Hl; [|done].
    exfalso. apply Hin. apply Hmem. eauto.
Qed.

Lemma invalidate_list_cache_keys_down (e : Env) (w : World) :
  keys_ok e = false →
  invalidate_list_cache e w = (Rejected redisClient.unreachable, w).
Proof.
  intros H. rewrite invalidate_list_cache_unfold. unfold redisClient.keys. by rewrite H.
Qed.

(** With a listing entry visible, the bulk invalidation reaches a Redis
    call that fails as soon as [keys] or [del] does. *)
Lemma invalidate_list_cache_del_down (e : Env) (w : World) (k : string) (en : Entry) :
  del_ok e = false →
  redis w !! k = Some en →
  redisClient.glob "items:*" k = true →
  redisClient.live e en = true →
  invalidate_list_cache e w = (Rejected redisClient.unreachable, w).
Proof.
  intros Hdel Hk Hg Hl. rewrite invalidate_list_cache_unfold.
  destruct (redisClient.keys e "items:*" w) as [[ks|err] w1] eqn:Hkeys.
  - assert (k ∈ ks) as Hin by (eapply elem_of_keys; eauto).
    unfold redisClient.keys in Hkeys. destruct (keys_ok e); [|discriminate].
    injection Hkeys as Hks <-.
    destruct ks as [|k0 ks0]; [by apply not_elem_of_nil in Hin|].
    unfold redisClient.del. by rewrite Hdel.
  - unfold redisClient.keys in Hkeys. destruct (keys_ok e); [discriminate|].
    by injection Hkeys as <- <-.
Qed.

Lemma read_None_of_not_live (e : Env) (k : string) (w : World) :
  (∀ en, redis w !! k = Some en → redisClient.live e en = false) →
  redisClient.read e k w = None.
Proof.
  intros H. unfold redisClient.read. destruct (redis w !! k) as [en|]; [|done].
  by rewrite (H en).
Qed.

End InvalidationFacts.

Section OrderingFacts.

Implicit Types (r : Item) (rows : list Item).

Lemma newest_first_tail r rows :
  newest_first (r :: rows) = true → newest_first rows = true.
Proof.
  destruct rows as [|b rows]; [done|]. simpl.
  intros [_ ?]%andb_true_iff. done.
Qed.

Lemma newest_first_cons r rows :
  newest_first rows = true →
  (∀ b, head rows = Some b → Item.created_at b ≤ Item.created_at r) →
  newest_first (r :: rows) = true.
Proof.
  destruct rows as [|b rows]; [done|]. intros Hs Hh.
  cbn [newest_first]. apply andb_true_iff. split; [|done].
  apply Z.leb_le. by apply Hh.
Qed.

Lemma newest_first_insert r rows :
  newest_first rows = true →
  newest_first (pool.insert_by_created_at_desc r rows) = true.
Proof.
  induction rows as [|x rows IH]; [done|]. intros Hs.
  cbn [pool.insert_by_created_at_desc].
  destruct (Item.created_at x <=? Item.created_at r) eqn:Hle.
  - apply newest_first_cons; [done|]. intros b [= <-]. by apply Z.leb_le.
  - apply Z.leb_gt in Hle. apply newest_first_cons.
    + apply IH. by eapply newest_first_tail.
    + intros b. destruct rows as [|y rows]; simpl.
      * intros [= <-]. lia.
      * simpl in Hs. apply andb_true_iff in Hs as [Hxy%Z.leb_le _].
        destruct (Item.created_at y <=? Item.created_at r);
          intros [= <-]; lia.
Qed.

Lemma newest_first_order_by rows :
  newest_first (pool.order_by_created_at_desc rows) = true.
Proof.
  induction rows as [|r rows IH]; [done|].
  simpl. by apply newest_first_insert.
Qed.

Lemma newest_first_drop n rows :
  newest_first rows = true → newest_first (drop n rows) = true.
Proof.
  revert rows. induction n as [|n IH]; intros rows Hs; [by rewrite drop_0|].
  destruct rows as [|r rows]; [done|]. simpl. apply IH.
  by eapply newest_first_tail.
Qed.

Lemma newest_first_take n rows :
  newest_first rows = true → newest_first (take n rows) = true.
Proof.
  revert rows. induction n as [|n IH]; intros rows Hs; [by rewrite take_0|].
  destruct rows as [|r rows]; [done|]. cbn [take].
  apply newest_first_cons.
  - apply IH. by eapply newest_first_tail.
  - intros b Hb. destruct rows as [|y rows]; [by destruct n|].
    simpl in Hs. apply andb_true_iff in Hs as [Hxy%Z.leb_le _].
    destruct n; simpl in Hb; [done|]. by injection Hb as <-.
Qed.

(** Whatever the page, the rows the store returns for it are newest
    first. *)
Lemma select_page_newest_first (e : Env) (limit offset : Z) (w w' : World) rows :
  pool.select_page e limit offset w = (Fulfilled rows, w') →
  w' = w ∧ newest_first rows = true.
Proof.
  unfold pool.select_page.
  destruct (negb (pg_ok e)); [discriminate|].
  destruct (limit <? 0); [discriminate|].
  destruct (offset <? 0); [discriminate|].
  intros [= <- <-]. split; [done|].
  apply newest_first_take, newest_first_drop, newest_first_order_by.
Qed.

End OrderingFacts.

(** * Facts about the routes *)

Section ListingFacts.

Lemma spread_database (count : Z) (rows : list Item) :
  spread [("source", JStr "database")] (page_json count rows)
  = ("source", JStr "database") :: page_json count rows.
Proof. reflexivity. Qed.

Lemma spread_cache (count : Z) (rows : list Item) :
  spread [("source", JStr "cache")] (page_json count rows)
  = ("source", JStr "cache") :: page_json count rows.
Proof. reflexivity. Qed.

(** The three ways a listing read can end. *)
Lemma get_items_inv (e : Env) (query : ListQuery) (w w' : World) (o : Outcome Response) :
  get_items e query w = (o, w') →
  let key := items_cacheKey (items_limit query) (items_offset query) in
  (∃ page, get_ok e = true ∧ redisClient.read e key w = Some page
           ∧ o = Fulfilled (mkResponse 200 (JObj (spread [("source", JStr "cache")] page)))
           ∧ w' = w)
  ∨ (∃ rows, get_ok e = true ∧ redisClient.read e key w = None
             ∧ pg_ok e = true ∧ setEx_ok e = true
             ∧ pool.select_page e (items_limit query) (items_offset query) w
               = (Fulfilled rows, w)
             ∧ o = Fulfilled (mkResponse 200
                      (JObj (("source", JStr "database")
                             :: page_json (Z.of_nat (length (items w))) rows)))
             ∧ w' = mkWorld (items w) (items_id_seq w)
                      (<[key := mkEntry (page_json (Z.of_nat (length (items w))) rows)
                                  (now e + 60 * 1000)]> (redis w)))
  ∨ (o = Fulfilled internal_server_error ∧ w' = w
     ∧ ¬ (get_ok e = true ∧ setEx_ok e = true ∧ pg_ok e = true
          ∧ 0 ≤ items_limit query ∧ 0 ≤ items_offset query)
     ∧ (get_ok e = true → redisClient.read e key w = None)).
Proof.
  intros H key. revert H. unfold get_items. fold key. async_unfold.
  unfold redisClient.get. destruct (get_ok e) eqn:Hget.
  2:{ intros [= <- <-]. right. right. split_and!; try done. by intros [? _]. }
  destruct (redisClient.read e key w) as [page|] eqn:Hread.
  { intros [= <- <-]. left. eauto 10. }
  unfold pool.count_items. destruct (pg_ok e) eqn:Hpg.
  2:{ intros [= <- <-]. right. right. split_and!; try done. by intros (_ & _ & ? & _). }
  destruct (pool.select_page e (items_limit query) (items_offset query) w)
    as [[rows|err] w1] eqn:Hsel.
  2:{ revert Hsel. unfold pool.select_page. rewrite Hpg. simpl.
      destruct (items_limit query <? 0) eqn:Hl.
      { intros [= _ <-] [= <- <-]. right. right. apply Z.ltb_lt in Hl.
        split_and!; try done. intros (_ & _ & _ & ? & _). lia. }
      destruct (items_offset query <? 0) eqn:Ho; [|discriminate].
      intros [= _ <-] [= <- <-]. right. right. apply Z.ltb_lt in Ho.
      split_and!; try done. intros (_ & _ & _ & _ & ?). lia. }
  destruct (select_page_newest_first _ _ _ _ _ _ Hsel) as [-> _].
  unfold redisClient.setEx. destruct (setEx_ok e) eqn:Hset.
  - intros [= <- <-]. right. left. exists rows. split_and!; done.
  - intros [= <- <-]. right. right. split_and!; try done. by intros (_ & ? & _).
Qed.

End ListingFacts.

Section PointReadFacts.

Lemma validate_param_id_ok (msg id : string) (next : Async Response) :
  Validator.isInt_min1 id = true → validate (param_id msg id) next = next.
Proof. intros H. unfold param_id. by rewrite H. Qed.

Lemma validate_param_id_bad (msg id : string) (next : Async Response) (w : World) :
  Validator.isInt_min1 id = false →
  validate (param_id msg id) next w
  = (Fulfilled (mkResponse 400
       (JObj [("error", JStr "Validation failed");
              ("details", JArr [Validator.error_entry "params" "id" msg])])), w).
Proof. intros H. unfold param_id. by rewrite H. Qed.

(** The ways a point read can end. *)
Lemma get_item_inv (e : Env) (id : string) (w w' : World) (o : Outcome Response) :
  get_item e id w = (o, w') →
  let key := item_cacheKey id in
  (Validator.isInt_min1 id = false ∧ w' = w
   ∧ ∃ b, o = Fulfilled (mkResponse 400 b))
  ∨ (∃ row, get_ok e = true ∧ redisClient.read e key w = Some row
            ∧ o = Fulfilled (mkResponse 200 (JObj row)) ∧ w' = w)
  ∨ (∃ n, get_ok e = true ∧ redisClient.read e key w = None ∧ pg_ok e = true
          ∧ pool.int4_in id = Some n
          ∧ filter (λ r, Item.id r = n) (items w) = []
          ∧ o = Fulfilled item_not_found ∧ w' = w)
  ∨ (∃ n row rest, get_ok e = true ∧ redisClient.read e key w = None
          ∧ pg_ok e = true ∧ setEx_ok e = true
          ∧ pool.int4_in id = Some n
          ∧ filter (λ r, Item.id r = n) (items w) = row :: rest
          ∧ o = Fulfilled (mkResponse 200 (JObj (item_json row)))
          ∧ w' = mkWorld (items w) (items_id_seq w)
                   (<[key := mkEntry (item_json row) (now e + 300 * 1000)]> (redis w)))
  ∨ (o = Fulfilled internal_server_error ∧ w' = w
     ∧ (get_ok e = false ∨ pg_ok e = false ∨ pool.int4_in id = None
        ∨ setEx_ok e = false)
     ∧ (get_ok e = true → redisClient.read e key w = None)).
Proof.
  intros H key. revert H. unfold get_item.
  destruct (Validator.isInt_min1 id) eqn:Hid.
  2:{ rewrite validate_param_id_bad by done. intros [= <- <-]. left. eauto. }
  rewrite validate_param_id_ok by done. fold key. async_unfold.
  unfold redisClient.get. destruct (get_ok e) eqn:Hget.
  2:{ intros [= <- <-]. do 4 right. split_and!; auto. done. }
  destruct (redisClient.read e key w) as [row|] eqn:Hread.
  { intros [= <- <-]. right. left. eauto 10. }
  unfold pool.select_by_id. destruct (pg_ok e) eqn:Hpg; simpl.
  2:{ intros [= <- <-]. do 4 right. split_and!; auto. }
  destruct (pool.int4_in id) as [n|] eqn:Hn.
  2:{ intros [= <- <-]. do 4 right. split_and!; auto. }
  destruct (filter (λ r, Item.id r = n) (items w)) as [|row rest] eqn:Hrows.
  { intros [= <- <-]. right. right. left. exists n. split_and!; done. }
  unfold redisClient.setEx. destruct (setEx_ok e) eqn:Hset.
  - intros [= <- <-]. do 3 right. left. exists n, row, rest. split_and!; done.
  - intros [= <- <-]. do 4 right. split_and!; auto.
Qed.

End PointReadFacts.

Section WriteFacts.

Lemma body_name_eq (msg : string) (req : ItemBody) :
  body_name msg (b_name req) = (sanitized_name req, (body_name msg (b_name req)).2).
Proof. reflexivity. Qed.

Lemma body_description_eq (req : ItemBody) :
  body_description (b_description req)
  = (sanitized_description req, (body_description (b_description req)).2).
Proof. unfold body_description, sanitized_description. by destruct (b_description req). Qed.

(** An empty name, or one of white space only, never passes. *)
Lemma body_errors_empty_name (msg : string) (req : ItemBody) :
  sanitized_name req = EmptyString → body_errors msg req ≠ [].
Proof.
  unfold body_errors, body_name, sanitized_name. intros ->. simpl. done.
Qed.

Lemma insert_item_inv (e : Env) (name : string) (description : option string)
      (w w1 : World) (rows : list Item) :
  pool.insert_item e name description w = (Fulfilled rows, w1) →
  let row := Item.mk (items_id_seq w) name description (now e) (now e) in
  rows = [row]
  ∧ w1 = mkWorld (items w ++ [row]) (items_id_seq w + 1) (redis w)
  ∧ pg_ok e = true.
Proof.
  unfold pool.insert_item. destruct (pg_ok e); [|discriminate]. simpl.
  destruct (2147483647 <? items_id_seq w); [discriminate|].
  case_bool_decide; [discriminate|]. by intros [= <- <-].
Qed.

Lemma insert_item_rejected (e : Env) (name : string) (description : option string)
      (w w1 : World) (err : string) :
  pool.insert_item e name description w = (Rejected err, w1) →
  items w1 = items w ∧ redis w1 = redis w.
Proof.
  unfold pool.insert_item. destruct (negb (pg_ok e)); [by intros [= _ <-]|].
  destruct (2147483647 <? items_id_seq w); [by intros [= _ <-]|].
  case_bool_decide; [by intros [= _ <-]|discriminate].
Qed.

(** The ways a create can end. *)
Lemma post_item_inv (e : Env) (req : ItemBody) (w w' : World) (o : Outcome Response) :
  post_item e req w = (o, w') →
  (body_errors "Name is required" req ≠ [] ∧ w' = w
   ∧ o = Fulfilled (mkResponse 400
           (JObj [("error", JStr "Validation failed");
                  ("details", JArr (body_errors "Name is required" req))])))
  ∨ (body_errors "Name is required" req = []
     ∧ ∃ err, pool.insert_item e (sanitized_name req) (sanitized_description req) w
              = (Rejected err, w')
              ∧ o = Fulfilled internal_server_error)
  ∨ (body_errors "Name is required" req = []
     ∧ ∃ row w1,
         pool.insert_item e (sanitized_name req) (sanitized_description req) w
         = (Fulfilled [row], w1)
         ∧ ((invalidate_list_cache e w1 = (Fulfilled (), w')
             ∧ o = Fulfilled (mkResponse 201 (JObj (item_json row))))
            ∨ (∃ err, invalidate_list_cache e w1 = (Rejected err, w')
                      ∧ o = Fulfilled internal_server_error))).
Proof.
  unfold post_item. rewrite body_name_eq, body_description_eq.
  fold (body_errors "Name is required" req).
  destruct (body_errors "Name is required" req) as [|err0 errs] eqn:Herr.
  2:{ intros [= <- <-]. left. split_and!; done. }
  async_unfold.
  destruct (pool.insert_item e (sanitized_name req) (sanitized_description req) w)
    as [[rows|err] w1] eqn:Hins.
  2:{ intros [= <- <-]. right. left. eauto. }
  destruct (insert_item_inv _ _ _ _ _ _ Hins) as (-> & _ & _).
  destruct (invalidate_list_cache e w1) as [[[]|err] w2] eqn:Hinv.
  - intros [= <- <-]. right. right. split; [done|]. eauto 10.
  - intros [= <- <-]. right. right. split; [done|]. eauto 10.
Qed.

End WriteFacts.

Section InvalidateCachesFacts.

(** Whatever its outcome, the invalidation leaves the table alone and
    can only remove the point key and keys of the listing pattern. *)
Lemma invalidate_caches_frame (e : Env) (id : string) (w w' : World) (o : Outcome ()) :
  invalidate_caches e id w = (o, w') →
  items w' = items w ∧ items_id_seq w' = items_id_seq w
  ∧ ∀ k, redis w' !! k = redis w !! k
         ∨ (redis w' !! k = None
            ∧ (k = item_cacheKey id ∨ redisClient.glob "items:*" k = true)).
Proof.
  unfold invalidate_caches. async_unfold. unfold redisClient.del at 1.
  destruct (del_ok e).
  2:{ intros [= <- <-]. auto. }
  intros (Hi & Hs & Hr)%invalidate_list_cache_frame. simpl in *.
  split_and!; try done. intros k. destruct (Hr k) as [->|[-> ?]]; [|auto].
  destruct (decide (k = item_cacheKey id)) as [->|Hne].
  - rewrite lookup_delete_eq. auto.
  - rewrite lookup_delete_ne by done. auto.
Qed.

(** Once it has completed, the point key is gone and no listing entry
    is visible. *)
Lemma invalidate_caches_done (e : Env) (id : string) (w w' : World) :
  invalidate_caches e id w = (Fulfilled (), w') →
  del_ok e = true ∧ keys_ok e = true
  ∧ redis w' !! item_cacheKey id = None
  ∧ ∀ k en, redisClient.glob "items:*" k = true →
            redis w' !! k = Some en → redisClient.live e en = false.
Proof.
  unfold invalidate_caches. async_unfold. unfold redisClient.del at 1.
  destruct (del_ok e) eqn:Hdel; [|discriminate]. intros Hinv.
  pose proof (invalidate_list_cache_frame _ _ _ _ Hinv) as (_ & _ & Hr).
  split_and!; [done| | |by eapply invalidate_list_cache_done].
  - destruct (keys_ok e) eqn:Hk; [done|].
    rewrite invalidate_list_cache_keys_down in Hinv by done. discriminate.
  - destruct (Hr (item_cacheKey id)) as [->|[-> ?]]; [|done].
    simpl. apply lookup_delete_eq.
Qed.

Lemma invalidate_caches_del_down (e : Env) (id : string) (w : World) :
  del_ok e = false →
  invalidate_caches e id w = (Rejected redisClient.unreachable, w).
Proof.
  intros H. unfold invalidate_caches. async_unfold. unfold redisClient.del. by rewrite H.
Qed.

Lemma invalidate_caches_keys_down (e : Env) (id : string) (w : World) :
  keys_ok e = false →
  ∃ w', invalidate_caches e id w = (Rejected redisClient.unreachable, w')
        ∧ items w' = items w.
Proof.
  intros H. unfold invalidate_caches. async_unfold. unfold redisClient.del.
  destruct (del_ok e); [|eauto].
  rewrite invalidate_list_cache_keys_down by done. eauto.
Qed.

End InvalidateCachesFacts.

Section UpdateDeleteFacts.

Lemma update_by_id_inv (e : Env) (name : string) (description : option string)
      (id : string) (w w1 : World) (o : Outcome (list Item)) :
  pool.update_by_id e name description id w = (o, w1) →
  (∃ err, o = Rejected err ∧ w1 = w
          ∧ (pg_ok e = false ∨ pool.int4_in id = None))
  ∨ (∃ n, pg_ok e = true ∧ pool.int4_in id = Some n
          ∧ o = Fulfilled (pool.set_columns e name description
                             <$> filter (λ r, Item.id r = n) (items w))
          ∧ w1 = mkWorld
                   ((λ r, if decide (Item.id r = n)
                          then pool.set_columns e name description r else r)
                      <$> items w)
                   (items_id_seq w) (redis w)).
Proof.
  unfold pool.update_by_id. destruct (pg_ok e); simpl.
  2:{ intros [= <- <-]. left. eauto. }
  destruct (pool.int4_in id) as [n|].
  - intros [= <- <-]. right. eauto 10.
  - intros [= <- <-]. left. eauto.
Qed.

Lemma delete_by_id_inv (e : Env) (id : string) (w w1 : World) (o : Outcome (list Item)) :
  pool.delete_by_id e id w = (o, w1) →
  (∃ err, o = Rejected err ∧ w1 = w
          ∧ (pg_ok e = false ∨ pool.int4_in id = None))
  ∨ (∃ n, pg_ok e = true ∧ pool.int4_in id = Some n
          ∧ o = Fulfilled (filter (λ r, Item.id r = n) (items w))
          ∧ w1 = mkWorld (filter (λ r, Item.id r ≠ n) (items w))
                   (items_id_seq w) (redis w)).
Proof.
  unfold pool.delete_by_id. destruct (pg_ok e); simpl.
  2:{ intros [= <- <-]. left. eauto. }
  destruct (pool.int4_in id) as [n|].
  - intros [= <- <-]. right. eauto 10.
  - intros [= <- <-]. left. eauto.
Qed.

(** A statement whose [WHERE] matches no row leaves the table as it is. *)
Lemma fmap_unmatched (f : Item → Item) (n : Z) (rows : list Item) :
  filter (λ r, Item.id r = n) rows = [] →
  (λ r, if decide (Item.id r = n) then f r else r) <$> rows = rows.
Proof.
  induction rows as [|r rows IH]; [done|].
  rewrite filter_cons. case_decide as Hr; [done|]. intros H.
  rewrite fmap_cons, IH by done. by rewrite decide_False.
Qed.

Lemma filter_unmatched (n : Z) (rows : list Item) :
  filter (λ r, Item.id r = n) rows = [] →
  filter (λ r, Item.id r ≠ n) rows = rows.
Proof.
  induction rows as [|r rows IH]; [done|].
  rewrite !filter_cons. case_decide as Hr; [done|]. intros H.
  rewrite decide_True by done. by rewrite IH.
Qed.

(** The ways an update can end. *)
Lemma put_item_inv (e : Env) (id : string) (req : ItemBody) (w w' : World)
      (o : Outcome Response) :
  put_item e id req w = (o, w') →
  (put_errors id req ≠ [] ∧ w' = w ∧ ∃ b, o = Fulfilled (mkResponse 400 b))
  ∨ (put_errors id req = [] ∧
     ∃ res w1,
       pool.update_by_id e (sanitized_name req) (sanitized_description req) id w
       = (res, w1)
       ∧ ((∃ err, res = Rejected err ∧ o = Fulfilled internal_server_error ∧ w' = w1)
          ∨ (res = Fulfilled [] ∧ o = Fulfilled item_not_found ∧ w' = w1)
          ∨ (∃ row rest, res = Fulfilled (row :: rest)
               ∧ ((invalidate_caches e id w1 = (Fulfilled (), w')
                   ∧ o = Fulfilled (mkResponse 200 (JObj (item_json row))))
                  ∨ (∃ err, invalidate_caches e id w1 = (Rejected err, w')
                            ∧ o = Fulfilled internal_server_error))))).
Proof.
  unfold put_item. rewrite body_name_eq, body_description_eq.
  fold (body_errors "Invalid value" req). fold (put_errors id req).
  destruct (put_errors id req) as [|err0 errs] eqn:Herr.
  2:{ intros [= <- <-]. left. split_and!; eauto. }
  async_unfold.
  destruct (pool.update_by_id e (sanitized_name req) (sanitized_description req) id w)
    as [[[|row rest]|err] w1] eqn:Hupd.
  - intros [= <- <-]. right. split; [done|]. exists (Fulfilled []), w1. eauto 10.
  - destruct (invalidate_caches e id w1) as [[[]|err] w2] eqn:Hinv;
      intros [= <- <-]; right; (split; [done|]);
      exists (Fulfilled (row :: rest)), w1;
      (split; [done|]); right; right; exists row, rest; eauto 10.
  - intros [= <- <-]. right. split; [done|]. exists (Rejected err), w1. eauto 10.
Qed.

(** The ways a delete can end. *)
Lemma delete_item_inv (e : Env) (id : string) (w w' : World) (o : Outcome Response) :
  delete_item e id w = (o, w') →
  (Validator.isInt_min1 id = false ∧ w' = w ∧ ∃ b, o = Fulfilled (mkResponse 400 b))
  ∨ (Validator.isInt_min1 id = true ∧
     ∃ res w1,
       pool.delete_by_id e id w = (res, w1)
       ∧ ((∃ err, res = Rejected err ∧ o = Fulfilled internal_server_error ∧ w' = w1)
          ∨ (res = Fulfilled [] ∧ o = Fulfilled item_not_found ∧ w' = w1)
          ∨ (∃ row rest, res = Fulfilled (row :: rest)
               ∧ ((invalidate_caches e id w1 = (Fulfilled (), w')
                   ∧ o = Fulfilled (mkResponse 200
                          (JObj [("message", JStr "Item deleted successfully");
                                 ("item", JObj (item_json row))])))
                  ∨ (∃ err, invalidate_caches e id w1 = (Rejected err, w')
                            ∧ o = Fulfilled internal_server_error))))).
Proof.
  unfold delete_item.
  destruct (Validator.isInt_min1 id) eqn:Hid.
  2:{ rewrite validate_param_id_bad by done. intros [= <- <-]. left. eauto. }
  rewrite validate_param_id_ok by done. async_unfold.
  destruct (pool.delete_by_id e id w) as [[[|row rest]|err] w1] eqn:Hdel.
  - intros [= <- <-]. right. split; [done|]. exists (Fulfilled []), w1. eauto 10.
  - destruct (invalidate_caches e id w1) as [[[]|err] w2] eqn:Hinv;
      intros [= <- <-]; right; (split; [done|]);
      exists (Fulfilled (row :: rest)), w1;
      (split; [done|]); right; right; exists row, rest; eauto 10.
  - intros [= <- <-]. right. split; [done|]. exists (Rejected err), w1. eauto 10.
Qed.

End UpdateDeleteFacts.

Section ForwardFacts.

Lemma read_after_setEx (e e' : Env) (k : string) (seconds : Z) (value : JObject)
      (w w' : World) :
  redisClient.setEx e k seconds value w = (Fulfilled (), w') →
  now e' < now e + seconds * 1000 →
  redisClient.read e' k w' = Some value.
Proof.
  unfold redisClient.setEx. destruct (setEx_ok e); [|discriminate].
  intros [= <-] Hlt. unfold redisClient.read, redisClient.live. simpl.
  rewrite lookup_insert_eq. simpl. by apply Z.ltb_lt in Hlt as ->.
Qed.

Lemma get_items_hit (e : Env) (query : ListQuery) (w : World) (page : JObject) :
  get_ok e = true →
  redisClient.read e (items_cacheKey (items_limit query) (items_offset query)) w
  = Some page →
  get_items e query w
  = (Fulfilled (mkResponse 200 (JObj (spread [("source", JStr "cache")] page))), w).
Proof.
  intros Hget Hread. unfold get_items. async_unfold. unfold redisClient.get.
  by rewrite Hget, Hread.
Qed.

Lemma get_items_miss (e : Env) (query : ListQuery) (w : World) :
  get_ok e = true → pg_ok e = true → setEx_ok e = true →
  redisClient.read e (items_cacheKey (items_limit query) (items_offset query)) w
  = None →
  0 ≤ items_limit query → 0 ≤ items_offset query →
  get_items e query w
  = (Fulfilled (mkResponse 200
       (JObj (("source", JStr "database")
              :: page_json (Z.of_nat (length (items w)))
                   (take (Z.to_nat (items_limit query))
                      (drop (Z.to_nat (items_offset query))
                         (pool.order_by_created_at_desc (items w))))))),
     mkWorld (items w) (items_id_seq w)
       (<[items_cacheKey (items_limit query) (items_offset query) :=
            mkEntry (page_json (Z.of_nat (length (items w)))
                       (take (Z.to_nat (items_limit query))
                          (drop (Z.to_nat (items_offset query))
                             (pool.order_by_created_at_desc (items w)))))
                    (now e + 60 * 1000)]> (redis w))).
Proof.
  intros Hget Hpg Hset Hread Hl Ho. unfold get_items. async_unfold.
  unfold redisClient.get, pool.count_items, pool.select_page, redisClient.setEx.
  rewrite Hget, Hread, Hpg, Hset. simpl.
  apply Z.ltb_ge in Hl as ->. apply Z.ltb_ge in Ho as ->. reflexivity.
Qed.

Lemma get_item_hit (e : Env) (id : string) (w : World) (row : JObject) :
  Validator.isInt_min1 id = true → get_ok e = true →
  redisClient.read e (item_cacheKey id) w = Some row →
  get_item e id w = (Fulfilled (mkResponse 200 (JObj row)), w).
Proof.
  intros Hid Hget Hread. unfold get_item. rewrite validate_param_id_ok by done.
  async_unfold. unfold redisClient.get. by rewrite Hget, Hread.
Qed.

Lemma blank_skip_spaces (s : string) : blank s = true → Js.skip_spaces s = EmptyString.
Proof.
  induction s as [|c s IH]; [done|]. simpl.
  intros [-> ?]%andb_true_iff. auto.
Qed.

Lemma blank_trim (s : string) : blank s = true → Validator.trim s = EmptyString.
Proof. intros H. unfold Validator.trim. by rewrite blank_skip_spaces. Qed.

End ForwardFacts.

Section TableFacts.

Lemma filter_updated (f : Item → Item) (n : Z) (rows : list Item) :
  (∀ r, Item.id (f r) = Item.id r) →
  filter (λ r, Item.id r = n)
    ((λ r, if decide (Item.id r = n) then f r else r) <$> rows)
  = f <$> filter (λ r, Item.id r = n) rows.
Proof.
  intros Hf. induction rows as [|r rows IH]; [done|].
  rewrite fmap_cons, !filter_cons. destruct (decide (Item.id r = n)) as [Hr|Hr].
  - rewrite decide_True by (by rewrite Hf). by rewrite fmap_cons, IH.
  - by rewrite decide_False.
Qed.

Lemma filter_deleted (n : Z) (rows : list Item) :
  filter (λ r, Item.id r = n) (filter (λ r, Item.id r ≠ n) rows) = [].
Proof.
  induction rows as [|r rows IH]; [done|].
  rewrite filter_cons. destruct (decide (Item.id r ≠ n)) as [Hr|Hr]; [|done].
  rewrite filter_cons. by rewrite decide_False.
Qed.

Lemma filter_id_nil (n : Z) (rows : list Item) :
  filter (λ r, Item.id r = n) rows = [] ↔ ∀ r, r ∈ rows → Item.id r ≠ n.
Proof.
  split.
  - intros Hnil r Hin Hr.
    assert (r ∈ filter (λ r, Item.id r = n) rows) as Hf
      by by apply list_elem_of_filter.
    rewrite Hnil in Hf. by apply elem_of_nil in Hf.
  - intros Hall. destruct (filter _ rows) as [|r rest] eqn:Hf; [done|].
    assert (r ∈ filter (λ r, Item.id r = n) rows) as Hin by (rewrite Hf; left).
    apply list_elem_of_filter in Hin as [? ?]. exfalso. by eapply Hall.
Qed.

Lemma world_eta (w : World) :
  mkWorld (items w) (items_id_seq w) (redis w) = w.
Proof. by destruct w. Qed.

End TableFacts.

Section Progress.

Lemma invalidate_list_cache_up (e : Env) (w : World) :
  keys_ok e = true → del_ok e = true →
  ∃ w', invalidate_list_cache e w = (Fulfilled (), w').
Proof.
  intros Hk Hd. rewrite invalidate_list_cache_unfold.
  unfold redisClient.keys, redisClient.del. rewrite Hk, Hd.
  destruct (fst <$> filter _ _); eauto.
Qed.

Lemma invalidate_caches_up (e : Env) (id : string) (w : World) :
  keys_ok e = true → del_ok e = true →
  ∃ w', invalidate_caches e id w = (Fulfilled (), w').
Proof.
  intros Hk Hd. unfold invalidate_caches. async_unfold.
  unfold redisClient.del at 1. rewrite Hd.
  by apply invalidate_list_cache_up.
Qed.

(** A valid create served by reachable collaborators is acknowledged
    with the new row, as long as the sequence yields a fresh id. *)
Lemma post_item_succeeds (e : Env) (req : ItemBody) (w : World) :
  body_errors "Name is required" req = [] →
  pg_ok e = true → keys_ok e = true → del_ok e = true →
  items_id_seq w ≤ 2147483647 →
  (∀ row, row ∈ items w → Item.id row ≠ items_id_seq w) →
  ∃ w',
    post_item e req w
    = (Fulfilled (mkResponse 201
         (JObj (item_json (Item.mk (items_id_seq w) (sanitized_name req)
                             (sanitized_description req) (now e) (now e))))),
       w')
    ∧ items w' = items w ++ [Item.mk (items_id_seq w) (sanitized_name req)
                               (sanitized_description req) (now e) (now e)].
Proof.
  intros Herr Hpg Hk Hd Hseq Hfresh.
  destruct (invalidate_list_cache_up e
              (mkWorld (items w ++ [Item.mk (items_id_seq w) (sanitized_name req)
                                      (sanitized_description req) (now e) (now e)])
                 (items_id_seq w + 1) (redis w)) Hk Hd) as [w' Hinv].
  pose proof (invalidate_list_cache_frame _ _ _ _ Hinv) as (Hitems & _).
  exists w'. split; [|done]. unfold post_item.
  rewrite body_name_eq, body_description_eq.
  fold (body_errors "Name is required" req). rewrite Herr.
  async_unfold. unfold pool.insert_item. rewrite Hpg. simpl.
  apply Z.ltb_ge in Hseq as ->.
  rewrite bool_decide_eq_false_2.
  - by rewrite Hinv.
  - intros (row & Hin & Hid)%Exists_exists. by eapply Hfresh.
Qed.

(** A valid update of an existing row served by reachable collaborators
    is acknowledged. *)
Lemma put_item_succeeds (e : Env) (id : string) (req : ItemBody) (w : World)
      (row : Item) :
  put_errors id req = [] →
  pool.int4_in id = Some (Item.id row) → row ∈ items w →
  pg_ok e = true → keys_ok e = true → del_ok e = true →
  ∃ r w', put_item e id req w = (Fulfilled r, w') ∧ status r = 200.
Proof.
  intros Herr Hn Hin Hpg Hk Hd. unfold put_item.
  rewrite body_name_eq, body_description_eq.
  fold (body_errors "Invalid value" req). fold (put_errors id req). rewrite Herr.
  async_unfold. unfold pool.update_by_id. rewrite Hpg, Hn. simpl.
  destruct (filter (λ r, Item.id r = Item.id row) (items w)) as [|old rest] eqn:Hf.
  { exfalso. eapply filter_id_nil; [exact Hf|exact Hin|done]. }
  rewrite fmap_cons.
  edestruct (invalidate_caches_up e id) as [w' ->]; [done..|]. eauto.
Qed.

(** A delete of an existing row served by reachable collaborators is
    acknowledged. *)
Lemma delete_item_succeeds (e : Env) (id : string) (w : World) (row : Item) :
  Validator.isInt_min1 id = true →
  pool.int4_in id = Some (Item.id row) → row ∈ items w →
  pg_ok e = true → keys_ok e = true → del_ok e = true →
  ∃ r w', delete_item e id w = (Fulfilled r, w') ∧ status r = 200.
Proof.
  intros Hid Hn Hin Hpg Hk Hd. unfold delete_item.
  rewrite validate_param_id_ok by done.
  async_unfold. unfold pool.delete_by_id. rewrite Hpg, Hn. simpl.
  destruct (filter (λ r, Item.id r = Item.id row) (items w)) as [|old rest] eqn:Hf.
  { exfalso. eapply filter_id_nil; [exact Hf|exact Hin|done]. }
  edestruct (invalidate_caches_up e id) as [w' ->]; [done..|]. eauto.
Qed.

End Progress.

Section SanityChecks.

Example parseInt_digits_prefix : Js.parseInt (Some "12abc") = Some 12.
Proof. reflexivity. Qed.

Example parseInt_hex : Js.parseInt (Some " 0x1f") = Some 31.
Proof. reflexivity. Qed.

Example parseInt_not_a_number : Js.parseInt (Some "abc") = None.
Proof. reflexivity. Qed.

Example limit_defaults_to_50 : items_limit (mkListQuery (Some "0") None) = 50.
Proof. reflexivity. Qed.

Example limit_has_no_lower_clamp : items_limit (mkListQuery (Some "-3") None) = -3.
Proof. reflexivity. Qed.

Example trim_both_sides : Validator.trim "  a b  " = "a b".
Proof. reflexivity. Qed.

Example isInt_accepts_a_sign : Validator.isInt_min1 "+1" = true.
Proof. reflexivity. Qed.

Example isInt_rejects_zero : Validator.isInt_min1 "0" = false.
Proof. reflexivity. Qed.

Example int4_in_out_of_range : pool.int4_in "99999999999" = None.
Proof. reflexivity. Qed.

(** Two creates and a listing: [B], created later, comes first. *)
Example listing_after_two_creates :
  (get_items (all_up 3000) (mkListQuery None None)
     (serve [(all_up 1000, PostItem (mkItemBody (Some "A") (Some "d1")));
             (all_up 2000, PostItem (mkItemBody (Some "B") (Some "d2")))] fresh)).1
  = Fulfilled (mkResponse 200
      (JObj (("source", JStr "database")
             :: page_json 2 [Item.mk 2 "B" (Some "d2") 2000 2000;
                             Item.mk 1 "A" (Some "d1") 1000 1000]))).
Proof. vm_compute. reflexivity. Qed.

(** A create on a warm cache: the listing entry is gone, the point entry
    is where it was. *)
Example create_on_warm_cache :
  redisClient.read (all_up 3000) "items:50:0" warm
  = Some (page_json 1 [item_A])
  ∧ redisClient.read (all_up 3000) "items:50:0"
      (post_item (all_up 3000) (mkItemBody (Some "B") None) warm).2 = None
  ∧ redisClient.read (all_up 3000) "item:1"
      (post_item (all_up 3000) (mkItemBody (Some "B") None) warm).2
    = Some (item_json item_A).
Proof. split_and!; vm_compute; reflexivity. Qed.

(** A negative offset reaches the store, which rejects it. *)
Example negative_offset_is_answered_500 :
  get_items (all_up 1000) (mkListQuery None (Some "-5")) one_row
  = (Fulfilled internal_server_error, one_row).
Proof. vm_compute. reflexivity. Qed.

(** The point key is built from the text of the path parameter: a row
    read as [+1] is cached under [item:+1], which an update addressed as
    [1] does not delete. *)
Example point_key_follows_the_path_text :
  (get_item (all_up 4000) "+1"
     (serve [(all_up 2000, GetItem "+1");
             (all_up 3000, PutItem "1" (mkItemBody (Some "A2") None))] one_row)).1
  = Fulfilled (mkResponse 200 (JObj (item_json item_A))).
Proof. vm_compute. reflexivity. Qed.

End SanityChecks.

(** * The claims *)

(** C4, counterexample. A requested offset of -5 is not raised to 0: the
    effective offset is -5 and the listing is looked up under the key
    [items:100:-5]. *)
Lemma negative_offset_passes_through :
  items_offset (mkListQuery (Some "200") (Some "-5")) = -5
  ∧ items_cacheKey (items_limit (mkListQuery (Some "200") (Some "-5")))
      (items_offset (mkListQuery (Some "200") (Some "-5")))
    = "items:100:-5".
Proof. split; reflexivity. Qed.

(** C4, as amended. The effective limit of a listing read never exceeds
    100, and a requested limit of 200 gives 100. The effective offset is
    the integer [parseInt] reads, and 0 when the parameter is absent, not a
    number or zero; it has no lower clamp, so a requested -5 stays -5. The
    read consults cache and store with these two values only. *)
Theorem limit_capped_offset_parsed :
  (∀ query, items_limit query ≤ 100)
  ∧ (∀ offset, items_limit (mkListQuery (Some "200") offset) = 100)
  ∧ (∀ query, items_offset query = Js.or_default (Js.parseInt (q_offset query)) 0
              ∧ (Js.parseInt (q_offset query) = None → items_offset query = 0))
  ∧ (∀ limit, items_offset (mkListQuery limit (Some "-5")) = -5)
  ∧ (∀ e query query',
       items_limit query = items_limit query' →
       items_offset query = items_offset query' →
       get_items e query = get_items e query').
Proof.
  split_and!.
  - intros query. unfold items_limit. lia.
  - reflexivity.
  - intros query. split; [reflexivity|]. unfold items_offset. by intros ->.
  - reflexivity.
  - intros e query query' Hl Ho. unfold get_items. by rewrite Hl, Ho.
Qed.

Lemma limit_capped_offset_parsed_witness :
  get_items (all_up 0) (mkListQuery (Some "200") None)
  = get_items (all_up 0) (mkListQuery (Some "100") (Some "0")).
Proof.
  apply limit_capped_offset_parsed; reflexivity.
Defined.

(** C7. A create whose name is missing, empty or made of white space only
    is answered 400 "Validation failed", and the world is left exactly as
    it was: no row is inserted and no cache key is deleted. *)
Theorem create_blank_name_rejected (e : Env) (req : ItemBody) (w : World) :
  blank (default EmptyString (b_name req)) = true →
  ∃ details,
    post_item e req w
    = (Fulfilled (mkResponse 400
         (JObj [("error", JStr "Validation failed"); ("details", JArr details)])),
       w).
Proof.
  intros Hblank.
  destruct (post_item e req w) as [o w'] eqn:Hpost.
  pose proof (body_errors_empty_name "Name is required" req
                (blank_trim _ Hblank)) as Herr.
  apply post_item_inv in Hpost as [(_ & -> & ->)|[[? _]|[? _]]]; [eauto|done..].
Qed.

Lemma create_blank_name_rejected_witness :
  ∃ details,
    post_item (all_up 5000) (mkItemBody (Some "   ") (Some "d1")) one_row
    = (Fulfilled (mkResponse 400
         (JObj [("error", JStr "Validation failed"); ("details", JArr details)])),
       one_row).
Proof.
  apply create_blank_name_rejected. reflexivity.
Defined.

Section CacheFrameFacts.

(** A create leaves every cache key as it was, or removes it when it
    is a listing key. *)
Lemma post_item_frame (e : Env) (req : ItemBody) (w : World) (k : string) :
  redis (post_item e req w).2 !! k = redis w !! k
  ∨ (redis (post_item e req w).2 !! k = None
     ∧ redisClient.glob "items:*" k = true).
Proof.
  destruct (post_item e req w) as [o w'] eqn:Hpost. simpl.
  apply post_item_inv in Hpost
    as [(_ & -> & _)|[(_ & err & Hins & _)|(_ & row & w1 & Hins & Hinv)]].
  - by left.
  - apply insert_item_rejected in Hins as [_ ->]. by left.
  - apply insert_item_inv in Hins as (_ & -> & _).
    assert (∃ o', invalidate_list_cache e
                    (mkWorld (items w ++ [Item.mk (items_id_seq w) (sanitized_name req)
                                            (sanitized_description req) (now e) (now e)])
                       (items_id_seq w + 1) (redis w)) = (o', w'))
      as [o' Ho'] by (destruct Hinv as [[? _]|(? & ? & _)]; eauto).
    apply invalidate_list_cache_frame in Ho' as (_ & _ & Hr).
    destruct (Hr k) as [->|[? ?]]; auto.
Qed.

(** An update leaves every cache key as it was or removes it. *)
Lemma put_item_frame (e : Env) (id : string) (req : ItemBody) (w : World) (k : string) :
  redis (put_item e id req w).2 !! k = redis w !! k
  ∨ redis (put_item e id req w).2 !! k = None.
Proof.
  destruct (put_item e id req w) as [o w'] eqn:Hput. simpl.
  apply put_item_inv in Hput as [(_ & -> & _)|(_ & res & w1 & Hupd & Hcase)];
    [by left|].
  assert (redis w1 = redis w) as Hw1.
  { apply update_by_id_inv in Hupd as [(? & _ & -> & _)|(? & _ & _ & _ & ->)]; done. }
  destruct Hcase as [(err & _ & _ & ->)|[(_ & _ & ->)|(row & rest & _ & Hinv)]];
    [left; by rewrite Hw1..|].
  assert (∃ o', invalidate_caches e id w1 = (o', w')) as [o' Ho']
    by (destruct Hinv as [[? _]|(? & ? & _)]; eauto).
  apply invalidate_caches_frame in Ho' as (_ & _ & Hr).
  destruct (Hr k) as [->|[? _]]; [left; by rewrite Hw1|by right].
Qed.

(** So does a delete. *)
Lemma delete_item_frame (e : Env) (id : string) (w : World) (k : string) :
  redis (delete_item e id w).2 !! k = redis w !! k
  ∨ redis (delete_item e id w).2 !! k = None.
Proof.
  destruct (delete_item e id w) as [o w'] eqn:Hdel. simpl.
  apply delete_item_inv in Hdel as [(_ & -> & _)|(_ & res & w1 & Hdel & Hcase)];
    [by left|].
  assert (redis w1 = redis w) as Hw1.
  { apply delete_by_id_inv in Hdel as [(? & _ & -> & _)|(? & _ & _ & _ & ->)]; done. }
  destruct Hcase as [(err & _ & _ & ->)|[(_ & _ & ->)|(row & rest & _ & Hinv)]];
    [left; by rewrite Hw1..|].
  assert (∃ o', invalidate_caches e id w1 = (o', w')) as [o' Ho']
    by (destruct Hinv as [[? _]|(? & ? & _)]; eauto).
  apply invalidate_caches_frame in Ho' as (_ & _ & Hr).
  destruct (Hr k) as [->|[? _]]; [left; by rewrite Hw1|by right].
Qed.

Lemma shrinking_keeps_listing_entries (w w' : World) :
  (∀ k, redis w' !! k = redis w !! k ∨ redis w' !! k = None) →
  listing_entries_newest_first w → listing_entries_newest_first w'.
Proof.
  intros Hshrink Hinv k en Hk Hg.
  destruct (Hshrink k) as [Heq|Heq]; [|congruence].
  rewrite Heq in Hk. by eapply Hinv.
Qed.

(** No request can put an unordered page under a listing key. *)
Lemma handle_keeps_listing_entries (e : Env) (rq : Request) (w : World) :
  listing_entries_newest_first w →
  listing_entries_newest_first (handle e rq w).2.
Proof.
  intros Hinv. destruct rq as [query|id|req|id req|id]; simpl.
  - destruct (get_items e query w) as [o w'] eqn:Hrun. simpl.
    apply get_items_inv in Hrun
      as [(page & _ & _ & _ & ->)|[(rows & _ & _ & _ & _ & Hsel & _ & ->)|(_ & -> & _)]];
      [done| |done].
    apply select_page_newest_first in Hsel as [_ Hsorted].
    intros k en Hk Hg. simpl in Hk.
    apply lookup_insert_Some in Hk as [[_ <-]|[_ Hk]]; [eauto|by eapply Hinv].
  - destruct (get_item e id w) as [o w'] eqn:Hrun. simpl.
    apply get_item_inv in Hrun
      as [(_ & -> & _)|[(row & _ & _ & _ & ->)|[(n & _ & _ & _ & _ & _ & _ & ->)
         |[(n & row & rest & _ & _ & _ & _ & _ & _ & _ & ->)|(_ & -> & _)]]]];
      try done.
    intros k en Hk Hg. simpl in Hk.
    apply lookup_insert_Some in Hk as [[<- _]|[_ Hk]]; [|by eapply Hinv].
    by rewrite glob_item_cacheKey in Hg.
  - eapply shrinking_keeps_listing_entries; [|done].
    intros k. destruct (post_item_frame e req w k) as [|[? _]]; auto.
  - eapply shrinking_keeps_listing_entries; [|done]. apply put_item_frame.
  - eapply shrinking_keeps_listing_entries; [|done]. apply delete_item_frame.
Qed.

Lemma serve_keeps_listing_entries (trace : list (Env * Request)) (w : World) :
  listing_entries_newest_first w →
  listing_entries_newest_first (serve trace w).
Proof.
  revert w. induction trace as [|[e rq] trace IH]; intros w Hinv; [done|].
  simpl. apply IH. by apply handle_keeps_listing_entries.
Qed.

End CacheFrameFacts.

(** C10. Whatever a create does to the cache, it does to keys of the
    listing pattern [items:*] only: a key whose entry differs after the
    create matches the pattern, and every point key [item:<id>] holds after
    the create exactly the entry (document and expiry) it held before, or
    is absent as before. This holds for every create, the successful ones
    included. *)
Theorem create_touches_listing_keys_only (e : Env) (req : ItemBody) (w : World) :
  (∀ k, redis (post_item e req w).2 !! k ≠ redis w !! k →
        redisClient.glob "items:*" k = true)
  ∧ (∀ id, redis (post_item e req w).2 !! item_cacheKey id
           = redis w !! item_cacheKey id).
Proof.
  split.
  - intros k Hne. destruct (post_item_frame e req w k) as [|[_ ?]]; done.
  - intros id. destruct (post_item_frame e req w (item_cacheKey id)) as [|[_ Hg]]; [done|].
    by rewrite glob_item_cacheKey in Hg.
Qed.

Lemma create_touches_listing_keys_only_witness :
  redisClient.glob "items:*" "items:50:0" = true
  ∧ redis (post_item (all_up 3000) (mkItemBody (Some "B") None) warm).2 !! item_cacheKey "1"
    = redis warm !! item_cacheKey "1".
Proof.
  split.
  - apply (proj1 (create_touches_listing_keys_only
                    (all_up 3000) (mkItemBody (Some "B") None) warm)).
    vm_compute. discriminate.
  - apply (proj2 (create_touches_listing_keys_only
                    (all_up 3000) (mkItemBody (Some "B") None) warm)).
Defined.

(** C9. With no row in the store and nothing visible under the key
    [items:50:0], a listing read with limit 50 and offset 0 that finds both
    collaborators answering returns count 0 and an empty sequence with
    source [database], and stores that empty page under the key; the same
    read repeated before the sixty seconds are over, with nothing written in
    between, returns the same count and sequence with source [cache]. *)
Theorem empty_listing_database_then_cache
        (e1 e2 : Env) (query : ListQuery) (w : World) :
  items w = [] →
  items_limit query = 50 → items_offset query = 0 →
  redisClient.read e1 "items:50:0" w = None →
  pg_ok e1 = true → get_ok e1 = true → setEx_ok e1 = true →
  get_ok e2 = true → now e2 < now e1 + 60 * 1000 →
  ∃ w1,
    get_items e1 query w
    = (Fulfilled (mkResponse 200
         (JObj [("source", JStr "database"); ("count", JNum 0); ("data", JArr [])])),
       w1)
    ∧ redis w1 !! "items:50:0"
      = Some (mkEntry [("count", JNum 0); ("data", JArr [])] (now e1 + 60 * 1000))
    ∧ get_items e2 query w1
      = (Fulfilled (mkResponse 200
           (JObj [("source", JStr "cache"); ("count", JNum 0); ("data", JArr [])])),
         w1).
Proof.
  intros Hrows Hl Ho Hread Hpg Hget Hset Hget2 Hlt.
  exists (mkWorld (items w) (items_id_seq w)
            (<["items:50:0" := mkEntry [("count", JNum 0); ("data", JArr [])]
                                 (now e1 + 60 * 1000)]> (redis w))).
  split_and!.
  - rewrite get_items_miss; rewrite ?Hl, ?Ho; try done.
    rewrite Hrows. reflexivity.
  - simpl. by rewrite lookup_insert_eq.
  - rewrite (get_items_hit _ _ _ [("count", JNum 0); ("data", JArr [])]);
      [reflexivity|done|].
    rewrite Hl, Ho. change (items_cacheKey 50 0) with "items:50:0".
    unfold redisClient.read, redisClient.live. simpl.
    rewrite lookup_insert_eq. simpl. by apply Z.ltb_lt in Hlt as ->.
Qed.

Lemma empty_listing_database_then_cache_witness :
  ∃ w1,
    get_items (all_up 1000) (mkListQuery (Some "50") (Some "0")) fresh
    = (Fulfilled (mkResponse 200
         (JObj [("source", JStr "database"); ("count", JNum 0); ("data", JArr [])])),
       w1)
    ∧ redis w1 !! "items:50:0"
      = Some (mkEntry [("count", JNum 0); ("data", JArr [])] (1000 + 60 * 1000))
    ∧ get_items (all_up 2000) (mkListQuery (Some "50") (Some "0")) w1
      = (Fulfilled (mkResponse 200
           (JObj [("source", JStr "cache"); ("count", JNum 0); ("data", JArr [])])),
         w1).
Proof.
  apply (empty_listing_database_then_cache (all_up 1000) (all_up 2000));
    solve [reflexivity | vm_compute; reflexivity].
Defined.

(** C3, counterexample. A point read answers with the row alone: read from
    the store the first time and from the cache the second time, the two
    bodies are the same and neither has a [source] property. *)
Lemma point_read_carries_no_provenance :
  (get_item (all_up 2000) "1" one_row).1
  = Fulfilled (mkResponse 200 (JObj (item_json item_A)))
  ∧ (get_item (all_up 3000) "1" (get_item (all_up 2000) "1" one_row).2).1
    = Fulfilled (mkResponse 200 (JObj (item_json item_A)))
  ∧ redisClient.read (all_up 3000) "item:1" (get_item (all_up 2000) "1" one_row).2
    = Some (item_json item_A)
  ∧ provenance (JObj (item_json item_A)) = None.
Proof. split_and!; vm_compute; reflexivity. Qed.

(** C3, as amended. A successful listing read that found nothing under
    its key returns the page with source [database], and the same read
    repeated within the sixty seconds returns the same count and rows with
    source [cache]. A successful point read that found nothing under its
    key returns the row of the store as it is, with no [source] property,
    and the same read repeated within the five minutes returns the very
    same response from the cache. *)
Theorem provenance_on_listing_reads_only :
  (∀ e1 e2 query w r1 w1,
     get_items e1 query w = (Fulfilled r1, w1) → status r1 = 200 →
     redisClient.read e1 (items_cacheKey (items_limit query) (items_offset query)) w
     = None →
     get_ok e2 = true → now e2 < now e1 + 60 * 1000 →
     ∃ count rows,
       body r1 = JObj (("source", JStr "database") :: page_json count rows)
       ∧ provenance (body r1) = Some (JStr "database")
       ∧ get_items e2 query w1
         = (Fulfilled (mkResponse 200
              (JObj (("source", JStr "cache") :: page_json count rows))), w1)
       ∧ provenance (JObj (("source", JStr "cache") :: page_json count rows))
         = Some (JStr "cache"))
  ∧ (∀ e1 e2 id w r1 w1,
       get_item e1 id w = (Fulfilled r1, w1) → status r1 = 200 →
       redisClient.read e1 (item_cacheKey id) w = None →
       get_ok e2 = true → now e2 < now e1 + 300 * 1000 →
       ∃ row,
         row ∈ items w
         ∧ r1 = mkResponse 200 (JObj (item_json row))
         ∧ provenance (body r1) = None
         ∧ get_item e2 id w1 = (Fulfilled r1, w1)).
Proof.
  split.
  - intros e1 e2 query w r1 w1 Hrun Hst Hmiss Hget2 Hlt.
    apply get_items_inv in Hrun
      as [(page & _ & Hhit & _)|[(rows & _ & _ & _ & _ & _ & Hr & ->)|(Hr & _)]].
    + congruence.
    + injection Hr as ->. eexists _, rows. split_and!; try reflexivity.
      rewrite <- spread_cache. apply get_items_hit; [done|].
      unfold redisClient.read, redisClient.live. simpl.
      rewrite lookup_insert_eq. simpl. by apply Z.ltb_lt in Hlt as ->.
    + injection Hr as ->. done.
  - intros e1 e2 id w r1 w1 Hrun Hst Hmiss Hget2 Hlt.
    assert (Validator.isInt_min1 id = true) as Hid.
    { destruct (Validator.isInt_min1 id) eqn:Hid; [done|]. exfalso.
      unfold get_item in Hrun. rewrite validate_param_id_bad in Hrun by done.
      injection Hrun as <- _. done. }
    apply get_item_inv in Hrun
      as [(_ & _ & b & Hr)|[(row & _ & Hhit & _)|[(n & _ & _ & _ & _ & _ & Hr & _)
         |[(n & row & rest & _ & _ & _ & _ & _ & Hrows & Hr & ->)|(Hr & _)]]]].
    + injection Hr as ->. done.
    + congruence.
    + injection Hr as ->. done.
    + injection Hr as ->. exists row. split_and!; try reflexivity.
      * eapply list_elem_of_filter. rewrite Hrows. left.
      * apply get_item_hit; [done..|].
        unfold redisClient.read, redisClient.live. simpl.
        rewrite lookup_insert_eq. simpl. by apply Z.ltb_lt in Hlt as ->.
    + injection Hr as ->. done.
Qed.

Lemma provenance_on_listing_reads_only_witness :
  ∃ row,
    row ∈ items one_row
    ∧ mkResponse 200 (JObj (item_json item_A)) = mkResponse 200 (JObj (item_json row))
    ∧ provenance (body (mkResponse 200 (JObj (item_json item_A)))) = None
    ∧ get_item (all_up 3000) "1" (get_item (all_up 2000) "1" one_row).2
      = (Fulfilled (mkResponse 200 (JObj (item_json item_A))),
         (get_item (all_up 2000) "1" one_row).2).
Proof.
  apply (proj2 provenance_on_listing_reads_only (all_up 2000) (all_up 3000) "1" one_row);
    solve [reflexivity | vm_compute; reflexivity].
Defined.

(** C1, counterexample. With the store answering and Redis unreachable, a
    listing read is answered 500 instead of being served from the store,
    and a create whose row has been inserted is answered 500 instead of
    being acknowledged. *)
Lemma cache_outage_fails_the_request :
  pg_ok (cache_down 2000) = true
  ∧ get_items (cache_down 2000) (mkListQuery None None) one_row
    = (Fulfilled internal_server_error, one_row)
  ∧ post_item (cache_down 2000) (mkItemBody (Some "B") (Some "d2")) one_row
    = (Fulfilled internal_server_error,
       mkWorld [item_A; Item.mk 2 "B" (Some "d2") 2000 2000] 3 ∅).
Proof. split_and!; vm_compute; reflexivity. Qed.

(** C1, as amended. A rejected cache call is caught by the one
    [try]/[catch] of its handler, like a store error, and the request is
    answered 500 "Internal server error". A listing read or a point read
    whose [get] rejects is not served from the store; neither is a listing
    read whose [setEx] rejects after a miss, nor a point read whose [setEx]
    rejects after a miss that found the row in the store. A create whose
    row has been inserted keeps the row but is answered 500 when [keys]
    rejects, and when [del] rejects with a listing entry visible (with none
    visible [del] is not called). An update or delete whose row has been
    changed or removed keeps that change but is answered 500 when [del] or
    [keys] rejects. *)
Theorem cache_failure_answers_500 :
  (∀ e query w,
     get_ok e = false →
     get_items e query w = (Fulfilled internal_server_error, w))
  ∧ (∀ e id w,
       Validator.isInt_min1 id = true → get_ok e = false →
       get_item e id w = (Fulfilled internal_server_error, w))
  ∧ (∀ e query w,
       setEx_ok e = false →
       redisClient.read e (items_cacheKey (items_limit query) (items_offset query)) w
       = None →
       get_items e query w = (Fulfilled internal_server_error, w))
  ∧ (∀ e req w row w1,
       keys_ok e = false →
       body_errors "Name is required" req = [] →
       pool.insert_item e (sanitized_name req) (sanitized_description req) w
       = (Fulfilled [row], w1) →
       post_item e req w = (Fulfilled internal_server_error, w1)
       ∧ items w1 = items w ++ [row])
  ∧ (∀ e id req w row rest w1,
       del_ok e = false ∨ keys_ok e = false →
       put_errors id req = [] →
       pool.update_by_id e (sanitized_name req) (sanitized_description req) id w
       = (Fulfilled (row :: rest), w1) →
       ∃ w', put_item e id req w = (Fulfilled internal_server_error, w')
             ∧ items w' = items w1)
  ∧ (∀ e id w row rest w1,
       del_ok e = false ∨ keys_ok e = false →
       Validator.isInt_min1 id = true →
       pool.delete_by_id e id w = (Fulfilled (row :: rest), w1) →
       ∃ w', delete_item e id w = (Fulfilled internal_server_error, w')
             ∧ items w' = items w1)
  ∧ (∀ e id w n row,
       Validator.isInt_min1 id = true →
       setEx_ok e = false →
       redisClient.read e (item_cacheKey id) w = None →
       pool.int4_in id = Some n → row ∈ items w → Item.id row = n →
       get_item e id w = (Fulfilled internal_server_error, w))
  ∧ (∀ e req w row w1 k en,
       del_ok e = false →
       body_errors "Name is required" req = [] →
       pool.insert_item e (sanitized_name req) (sanitized_description req) w
       = (Fulfilled [row], w1) →
       redis w !! k = Some en →
       redisClient.glob "items:*" k = true →
       redisClient.live e en = true →
       post_item e req w = (Fulfilled internal_server_error, w1)
       ∧ items w1 = items w ++ [row]).
Proof.
  assert (∀ e id w1, del_ok e = false ∨ keys_ok e = false →
            ∃ w', invalidate_caches e id w1 = (Rejected redisClient.unreachable, w')
                  ∧ items w' = items w1) as Hinv.
  { intros e id w1 [Hd|Hk].
    - rewrite invalidate_caches_del_down by done. eauto.
    - by apply invalidate_caches_keys_down. }
  split_and!.
  - intros e query w Hget. unfold get_items. async_unfold.
    unfold redisClient.get. by rewrite Hget.
  - intros e id w Hid Hget. unfold get_item. rewrite validate_param_id_ok by done.
    async_unfold. unfold redisClient.get. by rewrite Hget.
  - intros e query w Hset Hmiss.
    destruct (get_items e query w) as [o w'] eqn:Hrun.
    apply get_items_inv in Hrun
      as [(page & _ & Hhit & _)|[(rows & _ & _ & _ & ? & _)|(-> & -> & _)]];
      [congruence|congruence|done].
  - intros e req w row w1 Hkeys Herr Hins.
    pose proof (insert_item_inv _ _ _ _ _ _ Hins) as ([= Hrow] & Hw1 & _).
    split; [|by rewrite Hw1, Hrow]. unfold post_item.
    rewrite body_name_eq, body_description_eq.
    fold (body_errors "Name is required" req). rewrite Herr.
    async_unfold. rewrite Hins.
    by rewrite invalidate_list_cache_keys_down.
  - intros e id req w row rest w1 Hdown Herr Hupd.
    destruct (Hinv e id w1 Hdown) as (w' & Hrej & Hitems).
    exists w'. split; [|done]. unfold put_item.
    rewrite body_name_eq, body_description_eq.
    fold (body_errors "Invalid value" req). fold (put_errors id req). rewrite Herr.
    async_unfold. by rewrite Hupd, Hrej.
  - intros e id w row rest w1 Hdown Hid Hdel.
    destruct (Hinv e id w1 Hdown) as (w' & Hrej & Hitems).
    exists w'. split; [|done]. unfold delete_item.
    rewrite validate_param_id_ok by done.
    async_unfold. by rewrite Hdel, Hrej.
  - intros e id w n row Hid Hset Hmiss Hn Hin Hrow.
    destruct (get_item e id w) as [o w'] eqn:Hrun.
    apply get_item_inv in Hrun
      as [(? & _)|[(doc & _ & Hhit & _)|[(n' & _ & _ & _ & Hn' & Hnone & _)
         |[(n' & row' & rest & _ & _ & _ & ? & _)|(-> & -> & _)]]]];
      [congruence|congruence| |congruence|done].
    assert (n' = n) as -> by congruence.
    assert (row ∈ filter (λ r, Item.id r = n) (items w)) as Hfound
      by (by apply list_elem_of_filter).
    rewrite Hnone in Hfound. by apply not_elem_of_nil in Hfound.
  - intros e req w row w1 k en Hdel Herr Hins Hk Hg Hl.
    pose proof (insert_item_inv _ _ _ _ _ _ Hins) as ([= Hrow] & Hw1 & _).
    split; [|by rewrite Hw1, Hrow]. unfold post_item.
    rewrite body_name_eq, body_description_eq.
    fold (body_errors "Name is required" req). rewrite Herr.
    async_unfold. rewrite Hins.
    rewrite (invalidate_list_cache_del_down e w1 k en); try done.
    by rewrite Hw1.
Qed.

Lemma cache_failure_answers_500_witness :
  (∃ w', put_item (cache_down 2000) "1" (mkItemBody (Some "A2") None) one_row
         = (Fulfilled internal_server_error, w')
         ∧ items w' = [Item.mk 1 "A2" None 1000 2000])
  ∧ get_item (mkEnv 3000 true true false true true) "1" one_row
    = (Fulfilled internal_server_error, one_row)
  ∧ (post_item (del_down 3000) (mkItemBody (Some "B") None) warm
     = (Fulfilled internal_server_error,
        mkWorld [item_A; Item.mk 2 "B" None 3000 3000] 3 (redis warm))
     ∧ items (mkWorld [item_A; Item.mk 2 "B" None 3000 3000] 3 (redis warm))
       = items warm ++ [Item.mk 2 "B" None 3000 3000]).
Proof.
  destruct cache_failure_answers_500
    as (_ & _ & _ & _ & Hput & _ & Hpoint & Hcreate).
  split; [|split].
  - apply (Hput (cache_down 2000) "1" (mkItemBody (Some "A2") None) one_row
                (Item.mk 1 "A2" None 1000 2000) []
                (mkWorld [Item.mk 1 "A2" None 1000 2000] 2 ∅)).
    + left. reflexivity.
    + reflexivity.
    + vm_compute. reflexivity.
  - apply (Hpoint (mkEnv 3000 true true false true true) "1" one_row 1 item_A).
    + reflexivity.
    + reflexivity.
    + reflexivity.
    + reflexivity.
    + left.
    + reflexivity.
  - apply (Hcreate (del_down 3000) (mkItemBody (Some "B") None) warm
                   (Item.mk 2 "B" None 3000 3000)
                   (mkWorld [item_A; Item.mk 2 "B" None 3000 3000] 3 (redis warm))
                   "items:50:0" (mkEntry (page_json 1 [item_A]) 62000)).
    + reflexivity.
    + reflexivity.
    + vm_compute. reflexivity.
    + vm_compute. reflexivity.
    + reflexivity.
    + reflexivity.
Defined.

(** The update route, for one text of the id. When an update is
    acknowledged (answered 200), the acknowledged record is the stored row
    with the new name and description and the current instant as
    [updated_at]; by then the point key built from that text is gone from
    the cache and no listing entry is visible at that or any later instant;
    and a point read addressed with the same text and served right after
    it, if it succeeds, returns that updated record. Another text of the
    same id has a point key of its own, which the update leaves alone:
    see [update_leaves_alias_point_entry]. *)
Theorem update_invalidates_before_acknowledging
        (e : Env) (id : string) (req : ItemBody) (w w' : World) (r : Response) :
  put_item e id req w = (Fulfilled r, w') →
  status r = 200 →
  ∃ old,
    old ∈ items w
    ∧ pool.int4_in id = Some (Item.id old)
    ∧ r = mkResponse 200
            (JObj (item_json
                     (Item.mk (Item.id old) (sanitized_name req)
                        (sanitized_description req) (Item.created_at old) (now e))))
    ∧ redis w' !! item_cacheKey id = None
    ∧ (∀ e' k, now e ≤ now e' → redisClient.glob "items:*" k = true →
               redisClient.read e' k w' = None)
    ∧ (∀ e' r' w'',
         get_item e' id w' = (Fulfilled r', w'') → status r' = 200 →
         r' = r).
Proof.
  intros Hput Hst.
  apply put_item_inv in Hput as [(_ & _ & b & [= ->])|(_ & res & w1 & Hupd & Hcase)];
    [done|].
  destruct Hcase as [(err & _ & [= ->] & _)|[(_ & [= ->] & _)
                     |(row & rest & -> & [[Hinv [= ->]]|(err & _ & [= ->])])]];
    try done.
  apply update_by_id_inv in Hupd as [(err & ? & _)|(n & Hpg & Hn & [= Hrows] & ->)];
    [done|].
  pose proof (invalidate_caches_frame _ _ _ _ _ Hinv) as (Hitems & _ & _).
  pose proof (invalidate_caches_done _ _ _ _ Hinv) as (_ & _ & Hpoint & Hlists).
  simpl in Hitems.
  destruct (filter (λ r, Item.id r = n) (items w)) as [|old rest0] eqn:Hold;
    [done|].
  assert (old ∈ items w ∧ Item.id old = n) as [Hin Hid].
  { assert (old ∈ filter (λ r, Item.id r = n) (items w)) as H by (rewrite Hold; left).
    by apply list_elem_of_filter in H as [? ?]. }
  rewrite fmap_cons in Hrows. injection Hrows as -> ->.
  exists old. split_and!; try done.
  - by rewrite Hid.
  - intros e' k Hle Hg. apply read_None_of_not_live. intros en Hk.
    eapply live_mono; [done|]. by eapply Hlists.
  - intros e' r' w'' Hget Hst'.
    apply get_item_inv in Hget
      as [(_ & _ & b & [= ->])|[(row & _ & Hhit & _)|[(n' & _ & _ & _ & _ & _ & [= ->] & _)
         |[(n' & row & rest & _ & _ & _ & _ & Hn' & Hrows & [= ->] & _)|([= ->] & _)]]]];
      try done.
    + unfold redisClient.read in Hhit. by rewrite Hpoint in Hhit.
    + assert (n' = n) as -> by congruence.
      rewrite Hitems, filter_updated, Hold in Hrows by done.
      rewrite fmap_cons in Hrows. by injection Hrows as <- _.
Qed.

Lemma update_invalidates_before_acknowledging_witness :
  ∃ old,
    old ∈ items one_row
    ∧ pool.int4_in "1" = Some (Item.id old)
    ∧ mkResponse 200 (JObj (item_json (Item.mk 1 "A2" (Some "d") 1000 5000)))
      = mkResponse 200
          (JObj (item_json
                   (Item.mk (Item.id old) (sanitized_name (mkItemBody (Some "A2") (Some "d")))
                      (sanitized_description (mkItemBody (Some "A2") (Some "d")))
                      (Item.created_at old) (now (all_up 5000)))))
    ∧ redis (mkWorld [Item.mk 1 "A2" (Some "d") 1000 5000] 2 ∅) !! item_cacheKey "1" = None
    ∧ (∀ e' k, now (all_up 5000) ≤ now e' → redisClient.glob "items:*" k = true →
               redisClient.read e' k (mkWorld [Item.mk 1 "A2" (Some "d") 1000 5000] 2 ∅)
               = None)
    ∧ (∀ e' r' w'',
         get_item e' "1" (mkWorld [Item.mk 1 "A2" (Some "d") 1000 5000] 2 ∅)
         = (Fulfilled r', w'') → status r' = 200 →
         r' = mkResponse 200 (JObj (item_json (Item.mk 1 "A2" (Some "d") 1000 5000)))).
Proof.
  apply (update_invalidates_before_acknowledging (all_up 5000) "1"
           (mkItemBody (Some "A2") (Some "d")) (get_item (all_up 2000) "1" one_row).2).
  - vm_compute. reflexivity.
  - reflexivity.
Defined.

(** C2. The validator and the store accept more than one text for an id
    ([+1], [01] and [1] all denote the row 1), and the point key is built from
    the text. A point read of [+1] finds the row 1 and caches it under
    [item:+1]. The update of [1] is then acknowledged with the new record,
    the stored row being the new one, and has deleted [item:1] only: the
    point entry of the row under [item:+1] is still in the cache when the
    update is acknowledged. A point read of [+1] served right after the
    acknowledgement returns the record as it was before the update, while a
    point read of [1] returns the updated one. *)
Theorem update_leaves_alias_point_entry :
  let updated := Item.mk 1 "A2" None 1000 3000 in
  let w1 := (get_item (all_up 2000) "+1" one_row).2 in
  let w2 := (put_item (all_up 3000) "1" (mkItemBody (Some "A2") None) w1).2 in
  Validator.isInt_min1 "+1" = true
  ∧ pool.int4_in "+1" = Some 1 ∧ pool.int4_in "1" = Some 1
  ∧ (get_item (all_up 2000) "+1" one_row).1
    = Fulfilled (mkResponse 200 (JObj (item_json item_A)))
  ∧ put_item (all_up 3000) "1" (mkItemBody (Some "A2") None) w1
    = (Fulfilled (mkResponse 200 (JObj (item_json updated))), w2)
  ∧ items w2 = [updated]
  ∧ redis w2 !! item_cacheKey "1" = None
  ∧ redis w2 !! item_cacheKey "+1" = Some (mkEntry (item_json item_A) 302000)
  ∧ get_item (all_up 3000) "+1" w2
    = (Fulfilled (mkResponse 200 (JObj (item_json item_A))), w2)
  ∧ item_json item_A ≠ item_json updated
  ∧ (get_item (all_up 3000) "1" w2).1
    = Fulfilled (mkResponse 200 (JObj (item_json updated))).
Proof. vm_compute. split_and!; try reflexivity. discriminate. Qed.

(** The delete route, for one text of the id. A delete that is answered
    200 returns the row it removed, and no row with that id is left; a point
    read addressed with the same text and served afterwards never succeeds,
    and is answered 404 "Item not found" whenever the collaborators answer.
    A delete of an id that matches no row leaves the world, the cache
    included, as it was, and is answered 404 whenever the store answers.
    Another text of the same id has a point key of its own, which the
    delete leaves alone: see [delete_leaves_alias_point_entry]. *)
Theorem delete_then_not_found :
  (∀ e id w r w',
     delete_item e id w = (Fulfilled r, w') → status r = 200 →
     ∃ row,
       row ∈ items w
       ∧ pool.int4_in id = Some (Item.id row)
       ∧ r = mkResponse 200
               (JObj [("message", JStr "Item deleted successfully");
                      ("item", JObj (item_json row))])
       ∧ (∀ row', row' ∈ items w' → Item.id row' ≠ Item.id row)
       ∧ redis w' !! item_cacheKey id = None
       ∧ (∀ e', pg_ok e' = true → get_ok e' = true →
                get_item e' id w' = (Fulfilled item_not_found, w'))
       ∧ (∀ e' r' w'', get_item e' id w' = (Fulfilled r', w'') →
                       status r' ≠ 200 ∧ w'' = w'))
  ∧ (∀ e id n w,
       pool.int4_in id = Some n →
       (∀ row, row ∈ items w → Item.id row ≠ n) →
       (delete_item e id w).2 = w
       ∧ (Validator.isInt_min1 id = true → pg_ok e = true →
          delete_item e id w = (Fulfilled item_not_found, w))).
Proof.
  split.
  - intros e id w r w' Hdel Hst.
    apply delete_item_inv in Hdel
      as [(_ & _ & b & [= ->])|(Hid & res & w1 & Hdel & Hcase)]; [done|].
    destruct Hcase as [(err & _ & [= ->] & _)|[(_ & [= ->] & _)
                       |(row & rest & -> & [[Hinv [= ->]]|(err & _ & [= ->])])]];
      try done.
    apply delete_by_id_inv in Hdel as [(err & ? & _)|(n & Hpg & Hn & [= Hrows] & ->)];
      [done|].
    pose proof (invalidate_caches_frame _ _ _ _ _ Hinv) as (Hitems & _ & _).
    pose proof (invalidate_caches_done _ _ _ _ Hinv) as (_ & _ & Hpoint & _).
    simpl in Hitems.
    assert (row ∈ items w ∧ Item.id row = n) as [Hin Hrow].
    { assert (row ∈ filter (λ r, Item.id r = n) (items w)) as H
        by (rewrite <- Hrows; left).
      by apply list_elem_of_filter in H as [? ?]. }
    assert (filter (λ r, Item.id r = n) (items w') = []) as Hgone
      by (rewrite Hitems; apply filter_deleted).
    exists row. split_and!; try done.
    + by rewrite Hrow.
    + rewrite Hrow. by apply filter_id_nil.
    + intros e' Hpg' Hget'. unfold get_item.
      rewrite validate_param_id_ok by done. async_unfold.
      unfold redisClient.get, redisClient.read, pool.select_by_id.
      by rewrite Hget', Hpoint, Hpg', Hn, Hgone.
    + intros e' r' w'' Hget.
      apply get_item_inv in Hget
        as [(_ & -> & b & [= ->])|[(doc & _ & Hhit & _)
           |[(n' & _ & _ & _ & _ & _ & [= ->] & ->)
           |[(n' & row' & rest' & _ & _ & _ & _ & Hn' & Hrows' & _)|([= ->] & -> & _)]]]];
        try done.
      * unfold redisClient.read in Hhit. by rewrite Hpoint in Hhit.
      * assert (n' = n) as -> by congruence. by rewrite Hgone in Hrows'.
  - intros e id n w Hn Hnone. apply filter_id_nil in Hnone. split.
    + destruct (delete_item e id w) as [o w'] eqn:Hdel. simpl.
      apply delete_item_inv in Hdel as [(_ & -> & _)|(_ & res & w1 & Hdel & Hcase)];
        [done|].
      apply delete_by_id_inv in Hdel
        as [(err & -> & -> & _)|(n' & _ & Hn' & -> & ->)].
      * destruct Hcase as [(? & _ & _ & ->)|[(? & _)|(? & ? & ? & _)]]; done.
      * assert (n' = n) as -> by congruence. rewrite Hnone in Hcase.
        destruct Hcase as [(? & ? & _)|[(_ & _ & ->)|(? & ? & ? & _)]]; try done.
        by rewrite filter_unmatched, world_eta.
    + intros Hid Hpg.
      unfold delete_item. rewrite validate_param_id_ok by done. async_unfold.
      unfold pool.delete_by_id. rewrite Hpg, Hn. simpl. rewrite Hnone.
      by rewrite filter_unmatched, world_eta.
Qed.

Lemma delete_then_not_found_witness :
  (∃ row,
     row ∈ items warm
     ∧ pool.int4_in "1" = Some (Item.id row)
     ∧ mkResponse 200
         (JObj [("message", JStr "Item deleted successfully");
                ("item", JObj (item_json item_A))])
       = mkResponse 200
           (JObj [("message", JStr "Item deleted successfully");
                  ("item", JObj (item_json row))])
     ∧ (∀ row', row' ∈ items (mkWorld [] 2 ∅) → Item.id row' ≠ Item.id row)
     ∧ redis (mkWorld [] 2 ∅) !! item_cacheKey "1" = None
     ∧ (∀ e', pg_ok e' = true → get_ok e' = true →
              get_item e' "1" (mkWorld [] 2 ∅)
              = (Fulfilled item_not_found, mkWorld [] 2 ∅))
     ∧ (∀ e' r' w'', get_item e' "1" (mkWorld [] 2 ∅) = (Fulfilled r', w'') →
                     status r' ≠ 200 ∧ w'' = mkWorld [] 2 ∅))
  ∧ delete_item (all_up 3000) "2" warm = (Fulfilled item_not_found, warm).
Proof.
  split.
  - apply (proj1 delete_then_not_found (all_up 3000) "1" warm).
    + vm_compute. reflexivity.
    + reflexivity.
  - apply (proj2 delete_then_not_found (all_up 3000) "2" 2 warm).
    + reflexivity.
    + intros row Hin. vm_compute in Hin. apply list_elem_of_singleton in Hin as ->.
      vm_compute. discriminate.
    + reflexivity.
    + reflexivity.
Defined.

(** C8. The validator and the store accept more than one text for an id
    ([+1], [01] and [1] all denote the row 1), and the point key is built from
    the text. A point read of [+1] finds the row 1 and caches it under
    [item:+1]. The delete of [1] is then answered 200 with the removed
    record, and the table is empty; it has deleted [item:1] only. A point
    read of [+1] served afterwards does not fail with "Item not found": it
    is answered 200 with the deleted record, while a point read of [1] is
    answered 404. *)
Theorem delete_leaves_alias_point_entry :
  let w1 := (get_item (all_up 2000) "+1" one_row).2 in
  let w2 := (delete_item (all_up 3000) "1" w1).2 in
  Validator.isInt_min1 "+1" = true
  ∧ pool.int4_in "+1" = Some 1 ∧ pool.int4_in "1" = Some 1
  ∧ (get_item (all_up 2000) "+1" one_row).1
    = Fulfilled (mkResponse 200 (JObj (item_json item_A)))
  ∧ delete_item (all_up 3000) "1" w1
    = (Fulfilled (mkResponse 200
                    (JObj [("message", JStr "Item deleted successfully");
                           ("item", JObj (item_json item_A))])), w2)
  ∧ items w1 = [item_A] ∧ items w2 = []
  ∧ redis w2 !! item_cacheKey "1" = None
  ∧ redis w2 !! item_cacheKey "+1" = Some (mkEntry (item_json item_A) 302000)
  ∧ get_item (all_up 3000) "+1" w2
    = (Fulfilled (mkResponse 200 (JObj (item_json item_A))), w2)
  ∧ get_item (all_up 3000) "1" w2 = (Fulfilled item_not_found, w2).
Proof. vm_compute. split_and!; reflexivity. Qed.

(** C6, counterexample. Row 1 is read, which caches it, and then deleted
    while [DEL] is failing: the row is gone from the store and its cache
    entry is still there. A point read of id 1 served one second later has
    no matching row in the store, and is answered 200 with the removed
    row. *)
Lemma stale_point_entry_is_served :
  items after_failed_invalidation = []
  ∧ get_item (all_up 4000) "1" after_failed_invalidation
    = (Fulfilled (mkResponse 200 (JObj (item_json item_A))),
       after_failed_invalidation).
Proof. split; vm_compute; reflexivity. Qed.

(** C6, as amended. For every id with no matching row in the store, a
    point read writes nothing (the world after it is the world before it),
    and it is answered 404 "Item not found" whenever both collaborators
    answer and no visible entry sits under the point key of the id; a
    visible entry left there earlier is returned as it is. A point read
    writes a cache entry in one case only: a row with the requested id was
    found in the store, and that row is what is stored under the point
    key. *)
Theorem point_read_caches_found_rows_only :
  (∀ e id n w,
     pool.int4_in id = Some n →
     (∀ row, row ∈ items w → Item.id row ≠ n) →
     (get_item e id w).2 = w
     ∧ (Validator.isInt_min1 id = true → pg_ok e = true → get_ok e = true →
        redisClient.read e (item_cacheKey id) w = None →
        get_item e id w = (Fulfilled item_not_found, w))
     ∧ (∀ doc, Validator.isInt_min1 id = true → get_ok e = true →
               redisClient.read e (item_cacheKey id) w = Some doc →
               get_item e id w = (Fulfilled (mkResponse 200 (JObj doc)), w)))
  ∧ (∀ e id w o w',
       get_item e id w = (o, w') →
       w' = w
       ∨ ∃ row,
           row ∈ items w
           ∧ pool.int4_in id = Some (Item.id row)
           ∧ o = Fulfilled (mkResponse 200 (JObj (item_json row)))
           ∧ w' = mkWorld (items w) (items_id_seq w)
                    (<[item_cacheKey id := mkEntry (item_json row) (now e + 300 * 1000)]>
                       (redis w))).
Proof.
  assert (∀ e id w o w',
            get_item e id w = (o, w') →
            w' = w
            ∨ ∃ row,
                row ∈ items w
                ∧ pool.int4_in id = Some (Item.id row)
                ∧ o = Fulfilled (mkResponse 200 (JObj (item_json row)))
                ∧ w' = mkWorld (items w) (items_id_seq w)
                         (<[item_cacheKey id := mkEntry (item_json row) (now e + 300 * 1000)]>
                            (redis w))) as Hwrites.
  { intros e id w o w' Hget.
    apply get_item_inv in Hget
      as [(_ & -> & _)|[(row & _ & _ & _ & ->)|[(n & _ & _ & _ & _ & _ & _ & ->)
         |[(n & row & rest & _ & _ & _ & _ & Hn & Hrows & -> & ->)|(_ & -> & _)]]]];
      auto.
    right. exists row.
    assert (row ∈ filter (λ r, Item.id r = n) (items w)) as H by (rewrite Hrows; left).
    apply list_elem_of_filter in H as [<- ?]. done. }
  split; [|exact Hwrites].
  intros e id n w Hn Hnone. split_and!.
  - destruct (get_item e id w) as [o w'] eqn:Hget. simpl.
    apply Hwrites in Hget as [->|(row & Hin & Hrow & _)]; [done|].
    exfalso. apply (Hnone row Hin). congruence.
  - intros Hid Hpg Hget Hmiss. apply filter_id_nil in Hnone.
    unfold get_item. rewrite validate_param_id_ok by done. async_unfold.
    unfold redisClient.get, pool.select_by_id.
    by rewrite Hget, Hmiss, Hpg, Hn, Hnone.
  - intros doc Hid Hget Hhit. by apply get_item_hit.
Qed.

Lemma point_read_caches_found_rows_only_witness :
  get_item (all_up 2000) "7" one_row = (Fulfilled item_not_found, one_row).
Proof.
  apply (proj1 point_read_caches_found_rows_only (all_up 2000) "7" 7 one_row).
  - reflexivity.
  - intros row Hin. vm_compute in Hin. apply list_elem_of_singleton in Hin as ->.
    vm_compute. discriminate.
  - reflexivity.
  - reflexivity.
  - reflexivity.
  - reflexivity.
Defined.

(** C5, counterexample. Two rows created at the same instant, the one
    with the larger id first in the scan order of the table: the listing
    returns id 2 before id 1, so the tie is not broken by ascending id. *)
Lemma tie_not_broken_by_id :
  (get_items (all_up 2000) (mkListQuery None None) tied_rows).1
  = Fulfilled (mkResponse 200
      (JObj (("source", JStr "database")
             :: page_json 2 [Item.mk 2 "B" None 1000 1000;
                             Item.mk 1 "A" None 1000 1000])))
  ∧ newest_first_then_id [Item.mk 2 "B" None 1000 1000;
                          Item.mk 1 "A" None 1000 1000] = false.
Proof. split; vm_compute; reflexivity. Qed.

(** C5, as amended. Start from any table and an empty cache and serve any
    sequence of requests, under any failures of the collaborators. Every page
    a listing read then returns with status 200, from the cache or from the
    store, is the body [{ source, count, data }] of some rows that are
    newest first: [created_at] never increases along the page. The query
    orders by [created_at] alone, so the order among rows created at the
    same instant is whatever the store yields. *)
Theorem pages_are_newest_first
        (table : list Item) (seq : Z) (trace : list (Env * Request))
        (e : Env) (query : ListQuery) (r : Response) (w' : World) :
  get_items e query (serve trace (mkWorld table seq ∅)) = (Fulfilled r, w') →
  status r = 200 →
  ∃ source count rows,
    (source = "cache" ∨ source = "database")
    ∧ body r = JObj (("source", JStr source) :: page_json count rows)
    ∧ newest_first rows = true.
Proof.
  intros Hrun Hst.
  assert (listing_entries_newest_first (serve trace (mkWorld table seq ∅))) as Hinv.
  { apply serve_keeps_listing_entries. intros k en Hk. simpl in Hk.
    by rewrite lookup_empty in Hk. }
  apply get_items_inv in Hrun
    as [(page & _ & Hhit & [= ->] & _)|[(rows & _ & _ & _ & _ & Hsel & [= ->] & _)
       |([= ->] & _)]]; [| |done].
  - unfold redisClient.read in Hhit.
    destruct (redis (serve trace (mkWorld table seq ∅)) !! _) as [en|] eqn:Hk; [|done].
    destruct (redisClient.live e en); [|done]. injection Hhit as <-.
    destruct (Hinv _ _ Hk (glob_items_cacheKey _ _)) as (count & rows & -> & Hsorted).
    exists "cache", count, rows. rewrite spread_cache. auto.
  - apply select_page_newest_first in Hsel as [_ Hsorted].
    eexists "database", _, rows. split_and!; [by right|reflexivity|done].
Qed.

Lemma pages_are_newest_first_witness :
  ∃ source count rows,
    (source = "cache" ∨ source = "database")
    ∧ JObj (("source", JStr "cache")
            :: page_json 2 [Item.mk 2 "B" None 3000 3000; item_A])
      = JObj (("source", JStr source) :: page_json count rows)
    ∧ newest_first rows = true.
Proof.
  apply (pages_are_newest_first [item_A] 2
           [(all_up 3000, PostItem (mkItemBody (Some "B") None));
            (all_up 4000, GetItems (mkListQuery None None))]
           (all_up 5000) (mkListQuery None None)
           (mkResponse 200
              (JObj (("source", JStr "cache")
                     :: page_json 2 [Item.mk 2 "B" None 3000 3000; item_A])))
           (serve [(all_up 3000, PostItem (mkItemBody (Some "B") None));
                   (all_up 4000, GetItems (mkListQuery None None))]
              (mkWorld [item_A] 2 ∅))).
  - vm_compute. reflexivity.
  - reflexivity.
Defined.

(** * Further properties of the router *)

Section TableEffects.

Lemma insert_item_fresh (e : Env) (name : string) (description : option string)
      (w w1 : World) (rows : list Item) :
  pool.insert_item e name description w = (Fulfilled rows, w1) →
  items_id_seq w ≤ 2147483647
  ∧ ∀ row, row ∈ items w → Item.id row ≠ items_id_seq w.
Proof.
  unfold pool.insert_item. destruct (pg_ok e); [|discriminate]. simpl.
  destruct (2147483647 <? items_id_seq w) eqn:Hmax; [discriminate|].
  case_bool_decide as Hdup; [discriminate|]. intros _. split.
  - by apply Z.ltb_ge in Hmax.
  - intros row Hin Hid. apply Hdup. apply Exists_exists. eauto.
Qed.

Lemma insert_item_rejected_seq (e : Env) (name : string) (description : option string)
      (w w1 : World) (err : string) :
  pool.insert_item e name description w = (Rejected err, w1) →
  w1 = w
  ∨ (pg_ok e = true
     ∧ w1 = mkWorld (items w) (items_id_seq w + 1) (redis w)
     ∧ ∃ row, row ∈ items w ∧ Item.id row = items_id_seq w).
Proof.
  unfold pool.insert_item. destruct (pg_ok e); simpl; [|intros [= _ <-]; by left].
  destruct (2147483647 <? items_id_seq w); [intros [= _ <-]; by left|].
  case_bool_decide as Hdup; [|discriminate].
  intros [= _ <-]. right. split_and!; try done.
  apply Exists_exists in Hdup as (row & ? & ?). eauto.
Qed.

(** What a create does to the table and to the sequence. *)
Lemma post_item_table (e : Env) (req : ItemBody) (w : World) :
  (items (post_item e req w).2 = items w
   ∧ (items_id_seq (post_item e req w).2 = items_id_seq w
      ∨ items_id_seq (post_item e req w).2 = items_id_seq w + 1))
  ∨ (items (post_item e req w).2
     = items w ++ [Item.mk (items_id_seq w) (sanitized_name req)
                     (sanitized_description req) (now e) (now e)]
     ∧ items_id_seq (post_item e req w).2 = items_id_seq w + 1
     ∧ pg_ok e = true
     ∧ body_errors "Name is required" req = []
     ∧ ∀ row, row ∈ items w → Item.id row ≠ items_id_seq w).
Proof.
  destruct (post_item e req w) as [o w'] eqn:Hpost. simpl.
  apply post_item_inv in Hpost
    as [(_ & -> & _)|[(_ & err & Hins & _)|(Herr & row & w1 & Hins & Hinv)]].
  - left. auto.
  - left. apply insert_item_rejected_seq in Hins as [->|(_ & -> & _)]; auto.
  - right. pose proof (insert_item_fresh _ _ _ _ _ _ Hins) as [_ Hfresh].
    apply insert_item_inv in Hins as (_ & -> & Hpg).
    assert (∃ o', invalidate_list_cache e
                    (mkWorld (items w ++ [Item.mk (items_id_seq w) (sanitized_name req)
                                            (sanitized_description req) (now e) (now e)])
                       (items_id_seq w + 1) (redis w)) = (o', w'))
      as [o' Ho'] by (destruct Hinv as [[? _]|(? & ? & _)]; eauto).
    apply invalidate_list_cache_frame in Ho' as (-> & -> & _). done.
Qed.

(** What an update does to the table: nothing, or the new columns on the
    rows with the addressed [id]. *)
Lemma put_item_table (e : Env) (id : string) (req : ItemBody) (w : World) :
  items_id_seq (put_item e id req w).2 = items_id_seq w
  ∧ (items (put_item e id req w).2 = items w
     ∨ ∃ n, pool.int4_in id = Some n ∧ pg_ok e = true ∧ put_errors id req = []
            ∧ items (put_item e id req w).2
              = (λ r, if decide (Item.id r = n)
                      then pool.set_columns e (sanitized_name req)
                             (sanitized_description req) r
                      else r) <$> items w).
Proof.
  destruct (put_item e id req w) as [o w'] eqn:Hput. simpl.
  apply put_item_inv in Hput as [(_ & -> & _)|(Herr & res & w1 & Hupd & Hcase)];
    [auto|].
  assert (items w' = items w1 ∧ items_id_seq w' = items_id_seq w1) as [-> ->].
  { destruct Hcase as [(err & _ & _ & ->)|[(_ & _ & ->)|(row & rest & _ & Hinv)]];
      [done..|].
    assert (∃ o', invalidate_caches e id w1 = (o', w')) as [o' Ho']
      by (destruct Hinv as [[? _]|(? & ? & _)]; eauto).
    by apply invalidate_caches_frame in Ho' as (-> & -> & _). }
  apply update_by_id_inv in Hupd as [(? & _ & -> & _)|(n & Hpg & Hn & _ & ->)];
    [auto|].
  simpl. split; [done|]. right. eauto.
Qed.

(** What a delete does to the table: nothing, or the rows with the
    addressed [id] removed. *)
Lemma delete_item_table (e : Env) (id : string) (w : World) :
  items_id_seq (delete_item e id w).2 = items_id_seq w
  ∧ (items (delete_item e id w).2 = items w
     ∨ ∃ n, pool.int4_in id = Some n ∧ pg_ok e = true
            ∧ items (delete_item e id w).2
              = filter (λ r, Item.id r ≠ n) (items w)).
Proof.
  destruct (delete_item e id w) as [o w'] eqn:Hdel. simpl.
  apply delete_item_inv in Hdel as [(_ & -> & _)|(Hid & res & w1 & Hdel & Hcase)];
    [auto|].
  assert (items w' = items w1 ∧ items_id_seq w' = items_id_seq w1) as [-> ->].
  { destruct Hcase as [(err & _ & _ & ->)|[(_ & _ & ->)|(row & rest & _ & Hinv)]];
      [done..|].
    assert (∃ o', invalidate_caches e id w1 = (o', w')) as [o' Ho']
      by (destruct Hinv as [[? _]|(? & ? & _)]; eauto).
    by apply invalidate_caches_frame in Ho' as (-> & -> & _). }
  apply delete_by_id_inv in Hdel as [(? & _ & -> & _)|(n & Hpg & Hn & _ & ->)];
    [auto|].
  simpl. split; [done|]. right. eauto.
Qed.

(** The two reads leave the table and the sequence alone. *)
Lemma get_items_table (e : Env) (query : ListQuery) (w : World) :
  items (get_items e query w).2 = items w
  ∧ items_id_seq (get_items e query w).2 = items_id_seq w.
Proof.
  destruct (get_items e query w) as [o w'] eqn:Hrun. simpl.
  apply get_items_inv in Hrun
    as [(page & _ & _ & _ & ->)|[(rows & _ & _ & _ & _ & _ & _ & ->)|(_ & -> & _)]];
    done.
Qed.

Lemma get_item_table (e : Env) (id : string) (w : World) :
  items (get_item e id w).2 = items w
  ∧ items_id_seq (get_item e id w).2 = items_id_seq w.
Proof.
  destruct (get_item e id w) as [o w'] eqn:Hrun. simpl.
  apply get_item_inv in Hrun
    as [(_ & -> & _)|[(row & _ & _ & _ & ->)|[(n & _ & _ & _ & _ & _ & _ & ->)
       |[(n & row & rest & _ & _ & _ & _ & _ & _ & _ & ->)|(_ & -> & _)]]]];
    done.
Qed.

End TableEffects.

(** X1. A create that passes validation, served by a reachable store and
    cache, with the sequence within the range of [id] and its next value
    not yet in the table, is answered 201 with the stored row: the [id]
    drawn from the sequence, the trimmed name and description, both
    timestamps at the current instant. The row is appended to the table,
    the sequence moves on by one, and no listing entry is visible from
    then on. *)
Theorem create_acknowledged_with_stored_row (e : Env) (req : ItemBody) (w : World) :
  body_errors "Name is required" req = [] →
  pg_ok e = true → keys_ok e = true → del_ok e = true →
  items_id_seq w ≤ 2147483647 →
  (∀ row, row ∈ items w → Item.id row ≠ items_id_seq w) →
  ∃ w',
    post_item e req w
    = (Fulfilled (mkResponse 201
         (JObj (item_json (Item.mk (items_id_seq w) (sanitized_name req)
                             (sanitized_description req) (now e) (now e))))),
       w')
    ∧ items w' = items w ++ [Item.mk (items_id_seq w) (sanitized_name req)
                               (sanitized_description req) (now e) (now e)]
    ∧ items_id_seq w' = items_id_seq w + 1
    ∧ (∀ e' k, now e ≤ now e' → redisClient.glob "items:*" k = true →
               redisClient.read e' k w' = None).
Proof.
  intros Herr Hpg Hk Hd Hseq Hfresh.
  destruct (post_item_succeeds e req w Herr Hpg Hk Hd Hseq Hfresh) as (w' & Hpost & Hitems).
  exists w'. split; [done|]. split; [done|].
  pose proof Hpost as Hinv.
  apply post_item_inv in Hinv
    as [(? & _)|[(_ & err & _ & [= ?])|(_ & row & w1 & Hins & [[Hinv _]|(err & _ & [= ?])])]];
    try done.
  apply insert_item_inv in Hins as (_ & -> & _).
  pose proof (invalidate_list_cache_frame _ _ _ _ Hinv) as (_ & Hs & _).
  split; [done|]. intros e' k Hle Hg. apply read_None_of_not_live.
  intros en Hen. eapply live_mono; [done|].
  by eapply invalidate_list_cache_done.
Qed.

Lemma create_acknowledged_with_stored_row_witness :
  ∃ w',
    post_item (all_up 3000) (mkItemBody (Some " B ") None) warm
    = (Fulfilled (mkResponse 201
         (JObj (item_json (Item.mk 2 "B" None 3000 3000)))), w')
    ∧ items w' = items warm ++ [Item.mk 2 "B" None 3000 3000]
    ∧ items_id_seq w' = items_id_seq warm + 1
    ∧ (∀ e' k, now (all_up 3000) ≤ now e' → redisClient.glob "items:*" k = true →
               redisClient.read e' k w' = None).
Proof.
  apply (create_acknowledged_with_stored_row
           (all_up 3000) (mkItemBody (Some " B ") None) warm);
    try reflexivity.
  - vm_compute. discriminate.
  - intros row Hin. vm_compute in Hin. apply list_elem_of_singleton in Hin as ->.
    vm_compute. discriminate.
Defined.

(** X2. Create, then read back. After an acknowledged create, a point
    read under a text that denotes the new [id], with nothing visible under
    its point key and the collaborators answering, returns the created row
    from the store and caches it; the same read repeated within the five
    minutes returns the same row from the cache. *)
Theorem create_then_read_back
        (e e1 e2 : Env) (req : ItemBody) (id : string) (w w' : World) (r : Response) :
  post_item e req w = (Fulfilled r, w') → status r = 201 →
  Validator.isInt_min1 id = true →
  pool.int4_in id = Some (items_id_seq w) →
  redisClient.read e1 (item_cacheKey id) w = None →
  pg_ok e1 = true → get_ok e1 = true → setEx_ok e1 = true →
  get_ok e2 = true → now e2 < now e1 + 300 * 1000 →
  ∃ w1,
    r = mkResponse 201
          (JObj (item_json (Item.mk (items_id_seq w) (sanitized_name req)
                              (sanitized_description req) (now e) (now e))))
    ∧ get_item e1 id w'
      = (Fulfilled (mkResponse 200
           (JObj (item_json (Item.mk (items_id_seq w) (sanitized_name req)
                               (sanitized_description req) (now e) (now e))))), w1)
    ∧ get_item e2 id w1
      = (Fulfilled (mkResponse 200
           (JObj (item_json (Item.mk (items_id_seq w) (sanitized_name req)
                               (sanitized_description req) (now e) (now e))))), w1).
Proof.
  intros Hpost Hst Hid Hn Hmiss Hpg Hget Hset Hget2 Hlt.
  set (row := Item.mk (items_id_seq w) (sanitized_name req)
                (sanitized_description req) (now e) (now e)).
  apply post_item_inv in Hpost
    as [(_ & _ & [= ->])|[(_ & err & _ & [= ->])
       |(_ & row' & w1 & Hins & [[Hinv [= ->]]|(err & _ & [= ->])])]];
    try done.
  pose proof (insert_item_fresh _ _ _ _ _ _ Hins) as [_ Hfresh].
  apply insert_item_inv in Hins as ([= ->] & -> & _). fold row in Hinv |- *.
  apply invalidate_list_cache_frame in Hinv as (Hitems & _ & Hframe).
  simpl in Hitems, Hframe.
  assert (redisClient.read e1 (item_cacheKey id) w' = None) as Hmiss'.
  { unfold redisClient.read in *.
    destruct (Hframe (item_cacheKey id)) as [->|[-> _]]; done. }
  assert (filter (λ r, Item.id r = items_id_seq w) (items w') = [row]) as Hrows.
  { rewrite Hitems, filter_app, filter_cons, filter_nil.
    rewrite decide_True by done.
    replace (filter (λ r, Item.id r = items_id_seq w) (items w)) with (@nil Item);
      [done|]. symmetry. by apply filter_id_nil. }
  exists (mkWorld (items w') (items_id_seq w')
            (<[item_cacheKey id := mkEntry (item_json row) (now e1 + 300 * 1000)]>
               (redis w'))).
  split_and!; [done| |].
  - unfold get_item. rewrite validate_param_id_ok by done. async_unfold.
    unfold redisClient.get, pool.select_by_id, redisClient.setEx.
    by rewrite Hget, Hmiss', Hpg, Hn, Hrows, Hset.
  - apply get_item_hit; [done..|].
    unfold redisClient.read, redisClient.live. simpl.
    rewrite lookup_insert_eq. simpl. by apply Z.ltb_lt in Hlt as ->.
Qed.

Lemma create_then_read_back_witness :
  ∃ w1,
    mkResponse 201 (JObj (item_json (Item.mk 2 "B" None 3000 3000)))
    = mkResponse 201
        (JObj (item_json (Item.mk (items_id_seq warm)
                            (sanitized_name (mkItemBody (Some " B ") None))
                            (sanitized_description (mkItemBody (Some " B ") None))
                            (now (all_up 3000)) (now (all_up 3000)))))
    ∧ get_item (all_up 4000) "2"
        (post_item (all_up 3000) (mkItemBody (Some " B ") None) warm).2
      = (Fulfilled (mkResponse 200
           (JObj (item_json (Item.mk (items_id_seq warm)
                               (sanitized_name (mkItemBody (Some " B ") None))
                               (sanitized_description (mkItemBody (Some " B ") None))
                               (now (all_up 3000)) (now (all_up 3000)))))), w1)
    ∧ get_item (all_up 5000) "2" w1
      = (Fulfilled (mkResponse 200
           (JObj (item_json (Item.mk (items_id_seq warm)
                               (sanitized_name (mkItemBody (Some " B ") None))
                               (sanitized_description (mkItemBody (Some " B ") None))
                               (now (all_up 3000)) (now (all_up 3000)))))), w1).
Proof.
  apply (create_then_read_back (all_up 3000) (all_up 4000) (all_up 5000)
           (mkItemBody (Some " B ") None) "2" warm);
    solve [reflexivity | vm_compute; reflexivity].
Defined.

(** X3. An update that passes validation and addresses an [id] no row
    has leaves the world, table and cache, exactly as it was; when the
    store answers it is answered 404 "Item not found". *)
Theorem update_of_unknown_id_not_found
        (e : Env) (id : string) (n : Z) (req : ItemBody) (w : World) :
  pool.int4_in id = Some n →
  (∀ row, row ∈ items w → Item.id row ≠ n) →
  (put_item e id req w).2 = w
  ∧ (put_errors id req = [] → pg_ok e = true →
     put_item e id req w = (Fulfilled item_not_found, w)).
Proof.
  intros Hn Hnone. apply filter_id_nil in Hnone.
  assert (∀ res w1,
            pool.update_by_id e (sanitized_name req) (sanitized_description req) id w
            = (res, w1) →
            w1 = w ∧ (pg_ok e = true → res = Fulfilled [])) as Hupd.
  { intros res w1 H.
    apply update_by_id_inv in H as [(err & -> & -> & [Hpg|?])|(n' & Hpg & Hn' & -> & ->)].
    - split; [done|]. congruence.
    - congruence.
    - assert (n' = n) as -> by congruence.
      rewrite Hnone, fmap_unmatched, world_eta by done. done. }
  split.
  - destruct (put_item e id req w) as [o w'] eqn:Hput. simpl.
    apply put_item_inv in Hput as [(_ & -> & _)|(_ & res & w1 & Hu & Hcase)];
      [done|].
    pose proof (Hupd _ _ Hu) as [-> _].
    apply update_by_id_inv in Hu as [(err & -> & _)|(n' & _ & Hn' & -> & _)].
    + destruct Hcase as [(? & _ & _ & ->)|[(? & _)|(? & ? & ? & _)]]; done.
    + assert (n' = n) as -> by congruence. rewrite Hnone in Hcase.
      destruct Hcase as [(? & ? & _)|[(_ & _ & ->)|(? & ? & ? & _)]]; done.
  - intros Herr Hpg. unfold put_item.
    rewrite body_name_eq, body_description_eq.
    fold (body_errors "Invalid value" req). fold (put_errors id req). rewrite Herr.
    async_unfold.
    destruct (pool.update_by_id e (sanitized_name req) (sanitized_description req) id w)
      as [res w1] eqn:Hu.
    destruct (Hupd _ _ eq_refl) as [-> Hres]. by rewrite (Hres Hpg).
Qed.

Lemma update_of_unknown_id_not_found_witness :
  put_item (all_up 3000) "7" (mkItemBody (Some "Z") None) warm
  = (Fulfilled item_not_found, warm).
Proof.
  apply (update_of_unknown_id_not_found (all_up 3000) "7" 7).
  - reflexivity.
  - intros row Hin. vm_compute in Hin. apply list_elem_of_singleton in Hin as ->.
    vm_compute. discriminate.
  - reflexivity.
  - reflexivity.
Defined.

(** X4. An update never adds, removes or reorders rows, never changes an
    [id] or a [created_at], never moves the sequence, and never touches a
    row whose [id] is not the addressed one. When it is answered 200, every
    row with the addressed [id] carries the trimmed name and description of
    the request and the current instant as [updated_at]. *)
Theorem update_changes_addressed_row_only
        (e : Env) (id : string) (req : ItemBody) (w : World) :
  Item.id <$> items (put_item e id req w).2 = Item.id <$> items w
  ∧ Item.created_at <$> items (put_item e id req w).2 = Item.created_at <$> items w
  ∧ items_id_seq (put_item e id req w).2 = items_id_seq w
  ∧ (∀ n i row, pool.int4_in id = Some n → items w !! i = Some row →
                Item.id row ≠ n → items (put_item e id req w).2 !! i = Some row)
  ∧ (∀ r i row, (put_item e id req w).1 = Fulfilled r → status r = 200 →
                items w !! i = Some row → pool.int4_in id = Some (Item.id row) →
                items (put_item e id req w).2 !! i
                = Some (Item.mk (Item.id row) (sanitized_name req)
                          (sanitized_description req) (Item.created_at row) (now e))).
Proof.
  pose proof (put_item_table e id req w) as [Hseq Hitems].
  assert (∀ n (f : Item → Item) (rows : list Item) (proj : Item → Z),
            (∀ r, proj (f r) = proj r) →
            proj <$> ((λ r, if decide (Item.id r = n) then f r else r) <$> rows)
            = proj <$> rows) as Hproj.
  { intros n f rows proj Hf. rewrite <- list_fmap_compose. apply list_fmap_ext.
    intros _ r _. simpl. by case_decide. }
  split_and!.
  - destruct Hitems as [->|(n & _ & _ & _ & ->)]; [done|]. by apply Hproj.
  - destruct Hitems as [->|(n & _ & _ & _ & ->)]; [done|]. by apply Hproj.
  - done.
  - intros n i row Hn Hi Hne.
    destruct Hitems as [->|(n' & Hn' & _ & _ & ->)]; [done|].
    assert (n' = n) as -> by congruence.
    rewrite list_lookup_fmap, Hi. simpl. by rewrite decide_False.
  - intros r i row Hr Hst Hi Hn.
    destruct (put_item e id req w) as [o w'] eqn:Hput. simpl in *. subst o.
    apply put_item_inv in Hput as [(_ & _ & b & [= ->])|(_ & res & w1 & Hupd & Hcase)];
      [done|].
    destruct Hcase as [(err & _ & [= ->] & _)|[(_ & [= ->] & _)
                       |(row0 & rest & -> & [[Hinv _]|(err & _ & [= ->])])]];
      try done.
    apply invalidate_caches_frame in Hinv as (-> & _ & _).
    apply update_by_id_inv in Hupd as [(? & ? & _)|(n' & _ & Hn' & _ & ->)]; [done|].
    assert (n' = Item.id row) as -> by congruence. simpl.
    rewrite list_lookup_fmap, Hi. simpl. by rewrite decide_True.
Qed.

Lemma update_changes_addressed_row_only_witness :
  items (put_item (all_up 3000) "1" (mkItemBody (Some " A2 ") (Some "d")) warm).2 !! 0%nat
  = Some (Item.mk (Item.id item_A) (sanitized_name (mkItemBody (Some " A2 ") (Some "d")))
            (sanitized_description (mkItemBody (Some " A2 ") (Some "d")))
            (Item.created_at item_A) (now (all_up 3000))).
Proof.
  apply (proj2 (proj2 (proj2 (proj2
           (update_changes_addressed_row_only (all_up 3000) "1"
              (mkItemBody (Some " A2 ") (Some "d")) warm))))
           (mkResponse 200 (JObj (item_json (Item.mk 1 "A2" (Some "d") 1000 3000))))).
  - vm_compute. reflexivity.
  - reflexivity.
  - reflexivity.
  - reflexivity.
Defined.

(** X5. A delete never changes a row, never reorders rows, never moves
    the sequence and never removes a row whose [id] is not the addressed
    one: the rows with another [id] are the same, in the same order, before
    and after. When it is answered 200, the table afterwards is the table
    before without the rows of the addressed [id]. *)
Theorem delete_removes_addressed_row_only (e : Env) (id : string) (w : World) :
  items_id_seq (delete_item e id w).2 = items_id_seq w
  ∧ (∀ n, pool.int4_in id = Some n →
          filter (λ r, Item.id r ≠ n) (items (delete_item e id w).2)
          = filter (λ r, Item.id r ≠ n) (items w))
  ∧ (∀ r n, (delete_item e id w).1 = Fulfilled r → status r = 200 →
            pool.int4_in id = Some n →
            items (delete_item e id w).2 = filter (λ r, Item.id r ≠ n) (items w)).
Proof.
  pose proof (delete_item_table e id w) as [Hseq Hitems].
  split_and!; [done| |].
  - intros n Hn. destruct Hitems as [->|(n' & Hn' & _ & ->)]; [done|].
    assert (n' = n) as -> by congruence.
    induction (items w) as [|r rows IH]; [done|].
    rewrite !filter_cons. case_decide; [|done].
    by rewrite filter_cons, decide_True, IH by done.
  - intros r n Hr Hst Hn.
    destruct (delete_item e id w) as [o w'] eqn:Hdel. simpl in *. subst o.
    apply delete_item_inv in Hdel as [(_ & _ & b & [= ->])|(_ & res & w1 & Hdel & Hcase)];
      [done|].
    destruct Hcase as [(err & _ & [= ->] & _)|[(_ & [= ->] & _)
                       |(row0 & rest & -> & [[Hinv _]|(err & _ & [= ->])])]];
      try done.
    apply invalidate_caches_frame in Hinv as (-> & _ & _).
    apply delete_by_id_inv in Hdel as [(? & ? & _)|(n' & _ & Hn' & _ & ->)]; [done|].
    by assert (n' = n) as -> by congruence.
Qed.

Lemma delete_removes_addressed_row_only_witness :
  items (delete_item (all_up 3000) "1" warm).2
  = filter (λ r, Item.id r ≠ 1) (items warm).
Proof.
  apply (proj2 (proj2 (delete_removes_addressed_row_only (all_up 3000) "1" warm))
           (mkResponse 200
              (JObj [("message", JStr "Item deleted successfully");
                     ("item", JObj (item_json item_A))]))).
  - vm_compute. reflexivity.
  - reflexivity.
  - reflexivity.
Defined.

Section PrimaryKey.

Lemma handle_keeps_table_ok (e : Env) (rq : Request) (w : World) :
  table_ok w → table_ok (handle e rq w).2.
Proof.
  intros [Hnodup Hbelow]. destruct rq as [query|id|req|id req|id]; simpl.
  - destruct (get_items_table e query w) as [Hi Hs]. unfold table_ok.
    by rewrite Hi, Hs.
  - destruct (get_item_table e id w) as [Hi Hs]. unfold table_ok.
    by rewrite Hi, Hs.
  - destruct (post_item_table e req w) as [[Hi Hs]|(Hi & Hs & _ & _ & Hfresh)];
      unfold table_ok; rewrite Hi.
    + split; [done|]. intros row Hin. specialize (Hbelow row Hin).
      destruct Hs as [->| ->]; lia.
    + rewrite Hs. split.
      * rewrite fmap_app. apply NoDup_app. split_and!; [done| |apply NoDup_singleton].
        intros n Hn ->%list_elem_of_singleton.
        apply list_elem_of_fmap in Hn as (row & Hrow & Hin). simpl in Hrow.
        apply Hbelow in Hin. lia.
      * intros row [Hin|Hin%list_elem_of_singleton]%elem_of_app.
        -- apply Hbelow in Hin. lia.
        -- subst row. simpl. lia.
  - destruct (put_item_table e id req w) as [Hs [Hi|(n & _ & _ & _ & Hi)]];
      unfold table_ok; rewrite Hi, Hs; [done|]. split.
    + rewrite <- list_fmap_compose.
      replace (Item.id ∘ _  <$> items w) with (Item.id <$> items w); [done|].
      apply list_fmap_ext. intros _ r _. simpl. by case_decide.
    + intros row (r & -> & Hin)%list_elem_of_fmap. apply Hbelow in Hin.
      by case_decide.
  - destruct (delete_item_table e id w) as [Hs [Hi|(n & _ & _ & Hi)]];
      unfold table_ok; rewrite Hi, Hs; [done|]. split.
    + eapply sublist_NoDup; [exact Hnodup|].
      apply fmap_sublist, sublist_filter.
    + intros row [_ Hin]%list_elem_of_filter. by apply Hbelow.
Qed.

Lemma serve_keeps_table_ok (trace : list (Env * Request)) (w : World) :
  table_ok w → table_ok (serve trace w).
Proof.
  revert w. induction trace as [|[e rq] trace IH]; intros w Hok; [done|].
  simpl. apply IH. by apply handle_keeps_table_ok.
Qed.

End PrimaryKey.

(** X6. The primary key is kept. If no two rows share an [id] and the
    sequence is ahead of every [id], the same is true after any sequence of
    requests, whatever the collaborators do in between; and then a valid
    create served by reachable collaborators, with the sequence still in
    range, is acknowledged: it can never run into a duplicate key. *)
Theorem primary_key_is_kept
        (trace : list (Env * Request)) (w : World) :
  table_ok w →
  table_ok (serve trace w)
  ∧ ∀ e req,
      body_errors "Name is required" req = [] →
      pg_ok e = true → keys_ok e = true → del_ok e = true →
      items_id_seq (serve trace w) ≤ 2147483647 →
      ∃ r w', post_item e req (serve trace w) = (Fulfilled r, w') ∧ status r = 201.
Proof.
  intros Hok. apply (serve_keeps_table_ok trace) in Hok as Hok'.
  split; [done|]. intros e req Herr Hpg Hk Hd Hseq.
  destruct (post_item_succeeds e req (serve trace w) Herr Hpg Hk Hd Hseq)
    as (w' & -> & _).
  - intros row Hin. destruct Hok' as [_ Hbelow]. apply Hbelow in Hin. lia.
  - eauto.
Qed.

Lemma primary_key_is_kept_witness :
  table_ok (serve [(all_up 3000, PostItem (mkItemBody (Some "B") None));
                   (all_up 4000, DeleteItem "1");
                   (all_up 5000, PostItem (mkItemBody (Some "C") None))] one_row).
Proof.
  apply primary_key_is_kept. split.
  - vm_compute. apply NoDup_singleton.
  - intros row Hin. vm_compute in Hin. apply list_elem_of_singleton in Hin as ->.
    vm_compute. reflexivity.
Defined.

(** X7. The 400 answers of the router. A request is answered 400 exactly
    when its validation chains leave an error: a path [id] that is not an
    integer text of value 1 or more (point read, update, delete), or a body
    the chains reject (create, update); the listing has no chain and is
    never answered 400. A request answered 400 has reached neither the store
    nor the cache: the world is unchanged. *)
Theorem validation_failures_change_nothing (e : Env) (rq : Request) (w : World) :
  let invalid :=
    match rq with
    | GetItems _ => False
    | GetItem id | DeleteItem id => Validator.isInt_min1 id = false
    | PostItem req => body_errors "Name is required" req ≠ []
    | PutItem id req => put_errors id req ≠ []
    end in
  (invalid → ∃ b, handle e rq w = (Fulfilled (mkResponse 400 b), w))
  ∧ (∀ r w', handle e rq w = (Fulfilled r, w') → status r = 400 → invalid ∧ w' = w).
Proof.
  destruct rq as [query|id|req|id req|id]; simpl; split.
  - done.
  - intros r w' Hrun Hst.
    apply get_items_inv in Hrun
      as [(page & _ & _ & [= ->] & _)|[(rows & _ & _ & _ & _ & _ & [= ->] & _)
         |([= ->] & _)]]; done.
  - intros Hid. unfold get_item. rewrite validate_param_id_bad by done. eauto.
  - intros r w' Hrun Hst.
    apply get_item_inv in Hrun
      as [(? & -> & _)|[(row & _ & _ & [= ->] & _)|[(n & _ & _ & _ & _ & _ & [= ->] & _)
         |[(n & row & rest & _ & _ & _ & _ & _ & _ & [= ->] & _)|([= ->] & _)]]]];
      done.
  - intros Herr.
    destruct (post_item e req w) as [o w'] eqn:Hpost.
    apply post_item_inv in Hpost as [(_ & -> & ->)|[[? _]|[? _]]]; [eauto|done..].
  - intros r w' Hpost Hst.
    apply post_item_inv in Hpost
      as [(? & -> & _)|[(_ & err & _ & [= ->])
         |(_ & row & w1 & _ & [[_ [= ->]]|(err & _ & [= ->])])]]; done.
  - intros Herr.
    destruct (put_item e id req w) as [o w'] eqn:Hput.
    apply put_item_inv in Hput as [(_ & -> & b & ->)|[? _]]; [eauto|done].
  - intros r w' Hput Hst.
    apply put_item_inv in Hput as [(? & -> & _)|(_ & res & w1 & _ & Hcase)]; [done|].
    destruct Hcase as [(err & _ & [= ->] & _)|[(_ & [= ->] & _)
                       |(row & rest & _ & [[_ [= ->]]|(err & _ & [= ->])])]]; done.
  - intros Hid. unfold delete_item. rewrite validate_param_id_bad by done. eauto.
  - intros r w' Hdel Hst.
    apply delete_item_inv in Hdel as [(? & -> & _)|(_ & res & w1 & _ & Hcase)]; [done|].
    destruct Hcase as [(err & _ & [= ->] & _)|[(_ & [= ->] & _)
                       |(row & rest & _ & [[_ [= ->]]|(err & _ & [= ->])])]]; done.
Qed.

Lemma validation_failures_change_nothing_witness :
  ∃ b, handle (all_up 3000) (PutItem "0" (mkItemBody (Some "A") None)) warm
       = (Fulfilled (mkResponse 400 b), warm).
Proof.
  apply (proj1 (validation_failures_change_nothing
                  (all_up 3000) (PutItem "0" (mkItemBody (Some "A") None)) warm)).
  vm_compute. discriminate.
Defined.

(** X8. What the body chains accept. The name is trimmed first and must
    then be non-empty and at most 255 characters long; the description,
    when present, is trimmed and must then be at most 1000 characters long;
    a missing description is accepted. The lengths are taken after
    trimming, and the message makes no difference. *)
Theorem body_accepted_iff (msg : string) (req : ItemBody) :
  body_errors msg req = []
  ↔ sanitized_name req ≠ EmptyString
    ∧ (String.length (sanitized_name req) ≤ 255)%nat
    ∧ ∀ d, sanitized_description req = Some d → (String.length d ≤ 1000)%nat.
Proof.
  unfold body_errors, body_name, body_description, sanitized_description.
  fold (sanitized_name req). simpl.
  unfold Validator.notEmpty, Validator.isLength_max, Js.length.
  destruct (String.eqb_spec (sanitized_name req) EmptyString) as [Hname|Hname]; simpl.
  { split; [done|]. by intros [? _]. }
  destruct (Z.leb_spec (Z.of_nat (String.length (sanitized_name req))) 255)
    as [Hlen|Hlen]; simpl.
  2:{ split; [done|]. intros (_ & ? & _). lia. }
  destruct (b_description req) as [d|]; simpl.
  - destruct (Z.leb_spec (Z.of_nat (String.length (Validator.trim d))) 1000)
      as [Hd|Hd]; simpl.
    + split; [|done]. intros _. split_and!; [done|lia|]. intros ? [= <-]. lia.
    + split; [done|]. intros (_ & _ & H). specialize (H _ eq_refl). lia.
  - split; [|done]. intros _. split_and!; [done|lia|done].
Qed.

Lemma body_accepted_iff_witness :
  body_errors "Name is required" (mkItemBody (Some "  A  ") (Some " d ")) = [].
Proof.
  apply body_accepted_iff. split_and!.
  - vm_compute. discriminate.
  - vm_compute. lia.
  - intros d Hd. vm_compute in Hd. injection Hd as <-. vm_compute. lia.
Defined.

(** X9. A store outage. While the store is unreachable no request changes
    the world, so a failed write never invalidates a cache entry. A write is
    answered 400 or 500. A listing read is answered from the entry visible
    under the key of its own limit and offset, with that entry's page as the
    body, and 500 when Redis fails or that key holds nothing. A point read
    with a well-formed id is answered with the document visible under the
    key of its own id text, and 500 when Redis fails or that key holds
    nothing; with a malformed id it is answered 400. *)
Theorem store_outage_changes_nothing (e : Env) (rq : Request) (w : World) :
  pg_ok e = false →
  (handle e rq w).2 = w
  ∧ (is_write rq = true →
     ∃ r, (handle e rq w).1 = Fulfilled r
          ∧ (status r = 400 ∨ r = internal_server_error))
  ∧ (∀ query,
       let key := items_cacheKey (items_limit query) (items_offset query) in
       (∀ page, get_ok e = true → redisClient.read e key w = Some page →
                (get_items e query w).1
                = Fulfilled (mkResponse 200
                               (JObj (spread [("source", JStr "cache")] page))))
       ∧ (get_ok e = false ∨ redisClient.read e key w = None →
          (get_items e query w).1 = Fulfilled internal_server_error))
  ∧ (∀ id,
       Validator.isInt_min1 id = true →
       (∀ doc, get_ok e = true → redisClient.read e (item_cacheKey id) w = Some doc →
               (get_item e id w).1 = Fulfilled (mkResponse 200 (JObj doc)))
       ∧ (get_ok e = false ∨ redisClient.read e (item_cacheKey id) w = None →
          (get_item e id w).1 = Fulfilled internal_server_error))
  ∧ (∀ id,
       Validator.isInt_min1 id = false →
       ∃ b, (get_item e id w).1 = Fulfilled (mkResponse 400 b)).
Proof.
  intros Hpg. split_and!.
  - destruct (handle e rq w) as [o w'] eqn:Hrun. simpl.
    destruct rq as [query|id|req|id req|id]; simpl in Hrun.
    + apply get_items_inv in Hrun
        as [(page & _ & _ & _ & ->)|[(rows & _ & _ & ? & _)|(_ & -> & _)]];
        [done|congruence|done].
    + apply get_item_inv in Hrun
        as [(_ & -> & _)|[(row & _ & _ & _ & ->)|[(n & _ & _ & ? & _)
           |[(n & row & rest & _ & _ & ? & _)|(_ & -> & _)]]]];
        done || congruence.
    + apply post_item_inv in Hrun
        as [(_ & -> & _)|[(_ & err & Hins & _)|(_ & row & w1 & Hins & _)]]; [done| |].
      * apply insert_item_rejected_seq in Hins as [->|(? & _)]; [done|congruence].
      * apply insert_item_inv in Hins as (_ & _ & ?). congruence.
    + apply put_item_inv in Hrun as [(_ & -> & _)|(_ & res & w1 & Hupd & Hcase)];
        [done|].
      apply update_by_id_inv in Hupd as [(err & -> & -> & _)|(n & ? & _)];
        [|congruence].
      destruct Hcase as [(? & _ & _ & ->)|[(? & _)|(? & ? & ? & _)]]; done.
    + apply delete_item_inv in Hrun as [(_ & -> & _)|(_ & res & w1 & Hdel & Hcase)];
        [done|].
      apply delete_by_id_inv in Hdel as [(err & -> & -> & _)|(n & ? & _)];
        [|congruence].
      destruct Hcase as [(? & _ & _ & ->)|[(? & _)|(? & ? & ? & _)]]; done.
  - intros Hwrite. destruct (handle e rq w) as [o w'] eqn:Hrun. simpl.
    destruct rq as [query|id|req|id req|id]; simpl in Hrun; try done.
    + apply post_item_inv in Hrun
        as [(_ & _ & ->)|[(_ & err & _ & ->)|(_ & row & w1 & Hins & _)]];
        [eexists; split; [done|by left]|eexists; split; [done|by right]|].
      apply insert_item_inv in Hins as (_ & _ & ?). congruence.
    + apply put_item_inv in Hrun as [(_ & _ & b & ->)|(_ & res & w1 & Hupd & Hcase)];
        [eexists; split; [done|by left]|].
      apply update_by_id_inv in Hupd as [(err & -> & _)|(n & ? & _)]; [|congruence].
      destruct Hcase as [(? & _ & -> & _)|[(? & _)|(? & ? & ? & _)]]; [|done|done].
      eexists; split; [done|by right].
    + apply delete_item_inv in Hrun as [(_ & _ & b & ->)|(_ & res & w1 & Hdel & Hcase)];
        [eexists; split; [done|by left]|].
      apply delete_by_id_inv in Hdel as [(err & -> & _)|(n & ? & _)]; [|congruence].
      destruct Hcase as [(? & _ & -> & _)|[(? & _)|(? & ? & ? & _)]]; [|done|done].
      eexists; split; [done|by right].
  - intros query key. split.
    + intros page Hget Hhit. by rewrite (get_items_hit e query w page).
    + intros Hmiss. destruct (get_items e query w) as [o w'] eqn:Hrun. simpl.
      apply get_items_inv in Hrun
        as [(page & Hget & Hhit & _)|[(rows & _ & _ & ? & _)|(-> & _)]];
        [|congruence|done].
      fold key in Hhit. destruct Hmiss; congruence.
  - intros id Hid. split.
    + intros doc Hget Hhit. by rewrite (get_item_hit e id w doc).
    + intros Hmiss. destruct (get_item e id w) as [o w'] eqn:Hrun. simpl.
      apply get_item_inv in Hrun
        as [(? & _)|[(row & ? & ? & _)|[(n & _ & _ & ? & _)
           |[(n & row & rest & _ & _ & ? & _)|(-> & _)]]]];
        try congruence.
      destruct Hmiss; congruence.
  - intros id Hid. destruct (get_item e id w) as [o w'] eqn:Hrun. simpl.
    revert Hrun. unfold get_item. rewrite validate_param_id_bad by done.
    intros [= <- _]. eauto.
Qed.

Lemma store_outage_changes_nothing_witness :
  (handle (mkEnv 3000 false true true true true) (DeleteItem "1") warm).2 = warm
  ∧ (get_items (mkEnv 3000 false true true true true) (mkListQuery None None) warm).1
    = Fulfilled (mkResponse 200
        (JObj (spread [("source", JStr "cache")] (page_json 1 [item_A]))))
  ∧ (get_item (mkEnv 3000 false true true true true) "1" warm).1
    = Fulfilled (mkResponse 200 (JObj (item_json item_A)))
  ∧ (get_item (mkEnv 3000 false true true true true) "2" warm).1
    = Fulfilled internal_server_error.
Proof.
  split_and!.
  - apply (store_outage_changes_nothing (mkEnv 3000 false true true true true)).
    reflexivity.
  - apply (proj1 (proj2 (proj2 (store_outage_changes_nothing
                                  (mkEnv 3000 false true true true true)
                                  (GetItems (mkListQuery None None)) warm eq_refl)))
             (mkListQuery None None)).
    + reflexivity.
    + vm_compute. reflexivity.
  - apply (proj1 (proj2 (proj2 (proj2 (store_outage_changes_nothing
                                         (mkEnv 3000 false true true true true)
                                         (GetItem "1") warm eq_refl))))
             "1" eq_refl).
    + reflexivity.
    + vm_compute. reflexivity.
  - apply (proj1 (proj2 (proj2 (proj2 (store_outage_changes_nothing
                                         (mkEnv 3000 false true true true true)
                                         (GetItem "2") warm eq_refl))))
             "2" eq_refl).
    right. vm_compute. reflexivity.
Defined.

Section PageFacts.

Lemma insert_by_created_at_desc_perm (r : Item) (rows : list Item) :
  pool.insert_by_created_at_desc r rows ≡ₚ r :: rows.
Proof.
  induction rows as [|x rows IH]; [done|]. simpl.
  destruct (Item.created_at x <=? Item.created_at r); [done|].
  rewrite IH. apply Permutation_swap.
Qed.

(** Ordering neither loses nor invents a row. *)
Lemma order_by_created_at_desc_perm (rows : list Item) :
  pool.order_by_created_at_desc rows ≡ₚ rows.
Proof.
  induction rows as [|r rows IH]; [done|]. simpl.
  by rewrite insert_by_created_at_desc_perm, IH.
Qed.

End PageFacts.

(** X10. The page a listing read fetches from the store. On a miss
    answered 200, [count] is the number of rows in the whole table whatever
    the page, every row of [data] is a row of the table, and [data] has as
    many rows as are left after skipping [offset], up to [limit]; so never
    more than 100. *)
Theorem store_page_size_and_content
        (e : Env) (query : ListQuery) (w w' : World) (r : Response) :
  get_items e query w = (Fulfilled r, w') → status r = 200 →
  redisClient.read e (items_cacheKey (items_limit query) (items_offset query)) w
  = None →
  ∃ rows,
    r = mkResponse 200
          (JObj (("source", JStr "database")
                 :: page_json (Z.of_nat (length (items w))) rows))
    ∧ (∀ row, row ∈ rows → row ∈ items w)
    ∧ length rows
      = (Z.to_nat (items_limit query)
           `min` (length (items w) - Z.to_nat (items_offset query)))%nat
    ∧ (length rows ≤ 100)%nat.
Proof.
  intros Hrun Hst Hmiss.
  apply get_items_inv in Hrun
    as [(page & _ & ? & _)|[(rows & _ & _ & Hpg & _ & Hsel & [= ->] & _)|([= ->] & _)]];
    [congruence| |done].
  exists rows. split; [done|].
  unfold pool.select_page in Hsel. rewrite Hpg in Hsel. simpl in Hsel.
  destruct (items_limit query <? 0); [done|].
  destruct (items_offset query <? 0); [done|].
  injection Hsel as <-.
  assert (length (take (Z.to_nat (items_limit query))
                    (drop (Z.to_nat (items_offset query))
                       (pool.order_by_created_at_desc (items w))))
          = (Z.to_nat (items_limit query)
               `min` (length (items w) - Z.to_nat (items_offset query)))%nat) as Hlen.
  { rewrite length_take, length_drop.
    by rewrite (Permutation_length (order_by_created_at_desc_perm (items w))). }
  split_and!; [|done|].
  - intros row Hin.
    pose proof (elem_of_sublist _ _ _ Hin (sublist_take _ _)) as Hin1.
    pose proof (elem_of_sublist _ _ _ Hin1 (sublist_drop _ _)) as Hin2.
    by rewrite order_by_created_at_desc_perm in Hin2.
  - rewrite Hlen. assert (items_limit query ≤ 100) by (unfold items_limit; lia). lia.
Qed.

Lemma store_page_size_and_content_witness :
  ∃ rows,
    mkResponse 200
      (JObj (("source", JStr "database")
             :: page_json 2 [Item.mk 2 "B" None 1000 1000]))
    = mkResponse 200
        (JObj (("source", JStr "database")
               :: page_json (Z.of_nat (length (items tied_rows))) rows))
    ∧ (∀ row, row ∈ rows → row ∈ items tied_rows)
    ∧ length rows
      = (Z.to_nat (items_limit (mkListQuery (Some "1") None))
           `min` (length (items tied_rows)
                  - Z.to_nat (items_offset (mkListQuery (Some "1") None))))%nat
    ∧ (length rows ≤ 100)%nat.
Proof.
  apply (store_page_size_and_content (all_up 2000) (mkListQuery (Some "1") None)
           tied_rows (get_items (all_up 2000) (mkListQuery (Some "1") None) tied_rows).2).
  - vm_compute. reflexivity.
  - reflexivity.
  - vm_compute. reflexivity.
Defined.

Section CacheInvariants.

Lemma item_cacheKey_inj (id id' : string) :
  item_cacheKey id = item_cacheKey id' → id = id'.
Proof. unfold item_cacheKey. simpl. intros H. by injection H. Qed.

Lemma items_cacheKey_not_point (limit offset : Z) (id : string) :
  items_cacheKey limit offset ≠ item_cacheKey id.
Proof.
  intros Heq. pose proof (glob_items_cacheKey limit offset) as Hg.
  rewrite Heq, glob_item_cacheKey in Hg. done.
Qed.

(** How a request can change one cache key: not at all, by removing it,
    or by the write of a read: a page that expires in a minute under a
    listing key, or a found row that expires in five minutes under the
    point key of the text it was asked under. *)
Lemma handle_cache_effect (e : Env) (rq : Request) (w : World) (k : string) :
  redis (handle e rq w).2 !! k = redis w !! k
  ∨ redis (handle e rq w).2 !! k = None
  ∨ (∃ count rows,
       redisClient.glob "items:*" k = true
       ∧ redis (handle e rq w).2 !! k
         = Some (mkEntry (page_json count rows) (now e + 60 * 1000)))
  ∨ (∃ id row,
       k = item_cacheKey id ∧ pool.int4_in id = Some (Item.id row)
       ∧ redis (handle e rq w).2 !! k
         = Some (mkEntry (item_json row) (now e + 300 * 1000))).
Proof.
  destruct rq as [query|id|req|id req|id]; simpl.
  - destruct (get_items e query w) as [o w'] eqn:Hrun. simpl.
    apply get_items_inv in Hrun
      as [(page & _ & _ & _ & ->)|[(rows & _ & _ & _ & _ & _ & _ & ->)|(_ & -> & _)]];
      [by left| |by left].
    simpl. destruct (decide (items_cacheKey (items_limit query) (items_offset query) = k))
      as [<-|Hne].
    + right. right. left. rewrite lookup_insert_eq.
      eexists _, rows. split; [apply glob_items_cacheKey|done].
    + left. by rewrite lookup_insert_ne.
  - destruct (get_item e id w) as [o w'] eqn:Hrun. simpl.
    apply get_item_inv in Hrun
      as [(_ & -> & _)|[(row & _ & _ & _ & ->)|[(n & _ & _ & _ & _ & _ & _ & ->)
         |[(n & row & rest & _ & _ & _ & _ & Hn & Hrows & _ & ->)|(_ & -> & _)]]]];
      try by left.
    simpl. destruct (decide (item_cacheKey id = k)) as [<-|Hne].
    + do 3 right. rewrite lookup_insert_eq. exists id, row. split_and!; try done.
      assert (row ∈ filter (λ r, Item.id r = n) (items w)) as H by (rewrite Hrows; left).
      apply list_elem_of_filter in H as [<- _]. done.
    + left. by rewrite lookup_insert_ne.
  - destruct (post_item_frame e req w k) as [|[? _]]; auto.
  - destruct (put_item_frame e id req w k); auto.
  - destruct (delete_item_frame e id w k); auto.
Qed.

Lemma serve_keeps_point_entries (trace : list (Env * Request)) (w : World) :
  point_entries_match w → point_entries_match (serve trace w).
Proof.
  revert w. induction trace as [|[e rq] trace IH]; intros w Hinv; [done|].
  simpl. apply IH. intros id en Hk.
  destruct (handle_cache_effect e rq w (item_cacheKey id))
    as [Heq|[Heq|[(c & rows & Hg & _)|(id' & row & Hid & Hn & Heq)]]].
  - rewrite Heq in Hk. by apply Hinv.
  - congruence.
  - by rewrite glob_item_cacheKey in Hg.
  - apply item_cacheKey_inj in Hid as <-. rewrite Heq in Hk.
    injection Hk as <-. eauto.
Qed.

Lemma serve_keeps_expiries (t : Z) (trace : list (Env * Request)) (w : World) :
  Forall (λ p, now p.1 ≤ t) trace →
  expiries_within t w → expiries_within t (serve trace w).
Proof.
  revert w. induction trace as [|[e rq] trace IH]; intros w Ht Hinv; [done|].
  apply Forall_cons in Ht as [He Ht]. simpl in He.
  simpl. apply IH; [done|]. intros k en Hk.
  destruct (handle_cache_effect e rq w k)
    as [Heq|[Heq|[(c & rows & Hg & Heq)|(id' & row & Hid & Hn & Heq)]]].
  - rewrite Heq in Hk. by apply Hinv.
  - congruence.
  - rewrite Heq in Hk. injection Hk as <-. cbn [expires_at].
    split; [lia|]. intros _. lia.
  - rewrite Heq in Hk. injection Hk as <-. cbn [expires_at]. split; [lia|].
    intros Hg. rewrite Hid in Hg. by rewrite glob_item_cacheKey in Hg.
Qed.

(** An acknowledged write leaves no listing entry visible. *)
Lemma acknowledged_write_hides_listings (e : Env) (rq : Request) (w w' : World)
      (r : Response) :
  is_write rq = true →
  handle e rq w = (Fulfilled r, w') →
  status r = 200 ∨ status r = 201 →
  ∀ k en, redisClient.glob "items:*" k = true →
          redis w' !! k = Some en → redisClient.live e en = false.
Proof.
  intros Hwrite Hrun Hst. destruct rq as [query|id|req|id req|id]; try done;
    simpl in Hrun.
  - apply post_item_inv in Hrun
      as [(_ & _ & [= ->])|[(_ & err & _ & [= ->])
         |(_ & row & w1 & _ & [[Hinv _]|(err & _ & [= ->])])]];
      try (by destruct Hst).
    by eapply invalidate_list_cache_done.
  - apply put_item_inv in Hrun as [(_ & _ & b & [= ->])|(_ & res & w1 & _ & Hcase)];
      [by destruct Hst|].
    destruct Hcase as [(err & _ & [= ->] & _)|[(_ & [= ->] & _)
                       |(row & rest & _ & [[Hinv _]|(err & _ & [= ->])])]];
      try (by destruct Hst).
    by apply invalidate_caches_done in Hinv as (_ & _ & _ & ?).
  - apply delete_item_inv in Hrun as [(_ & _ & b & [= ->])|(_ & res & w1 & _ & Hcase)];
      [by destruct Hst|].
    destruct Hcase as [(err & _ & [= ->] & _)|[(_ & [= ->] & _)
                       |(row & rest & _ & [[Hinv _]|(err & _ & [= ->])])]];
      try (by destruct Hst).
    by apply invalidate_caches_done in Hinv as (_ & _ & _ & ?).
Qed.

End CacheInvariants.

(** X11. A point read never answers with another record. Start from any
    table and an empty cache and serve any sequence of requests, under any
    failures: a point read that is then answered 200, from the cache or
    from the store, returns a row whose [id] is the integer its path text
    denotes. *)
Theorem point_read_returns_the_requested_id
        (table : list Item) (seq : Z) (trace : list (Env * Request))
        (e : Env) (id : string) (r : Response) (w' : World) :
  get_item e id (serve trace (mkWorld table seq ∅)) = (Fulfilled r, w') →
  status r = 200 →
  ∃ row, r = mkResponse 200 (JObj (item_json row))
         ∧ pool.int4_in id = Some (Item.id row).
Proof.
  intros Hrun Hst.
  assert (point_entries_match (serve trace (mkWorld table seq ∅))) as Hinv.
  { apply serve_keeps_point_entries. intros k en Hk. simpl in Hk.
    by rewrite lookup_empty in Hk. }
  apply get_item_inv in Hrun
    as [(_ & _ & b & [= ->])|[(doc & _ & Hhit & [= ->] & _)
       |[(n & _ & _ & _ & _ & _ & [= ->] & _)
       |[(n & row & rest & _ & _ & _ & _ & Hn & Hrows & [= ->] & _)|([= ->] & _)]]]];
    try done.
  - unfold redisClient.read in Hhit.
    destruct (redis (serve trace (mkWorld table seq ∅)) !! _) as [en|] eqn:Hk; [|done].
    destruct (redisClient.live e en); [|done]. injection Hhit as <-.
    destruct (Hinv _ _ Hk) as (row & -> & Hrow). eauto.
  - exists row. split; [done|].
    assert (row ∈ filter (λ r, Item.id r = n) (items (serve trace (mkWorld table seq ∅))))
      as H by (rewrite Hrows; left).
    apply list_elem_of_filter in H as [<- _]. done.
Qed.

Lemma point_read_returns_the_requested_id_witness :
  ∃ row, mkResponse 200 (JObj (item_json item_A)) = mkResponse 200 (JObj (item_json row))
         ∧ pool.int4_in "+1" = Some (Item.id row).
Proof.
  apply (point_read_returns_the_requested_id [item_A] 2
           [(all_up 2000, GetItem "+1");
            (all_up 3000, PutItem "1" (mkItemBody (Some "A2") None))]
           (all_up 4000) "+1"
           (mkResponse 200 (JObj (item_json item_A)))
           (serve [(all_up 2000, GetItem "+1");
                   (all_up 3000, PutItem "1" (mkItemBody (Some "A2") None))]
              (mkWorld [item_A] 2 ∅))).
  - vm_compute. reflexivity.
  - reflexivity.
Defined.

(** X12. No entry outlives its time to live. Start from any table and an
    empty cache and serve any sequence of requests, none later than the
    instant [t]. A minute after [t] nothing is visible under any listing
    key, so a listing read answered 200 then comes from the store; five
    minutes after [t] nothing is visible under any key at all. *)
Theorem entries_expire_with_their_ttl
        (table : list Item) (seq : Z) (trace : list (Env * Request)) (t : Z)
        (e : Env) :
  Forall (λ p, now p.1 ≤ t) trace →
  (t + 60 * 1000 ≤ now e →
   (∀ k, redisClient.glob "items:*" k = true →
         redisClient.read e k (serve trace (mkWorld table seq ∅)) = None)
   ∧ ∀ query r w',
       get_items e query (serve trace (mkWorld table seq ∅)) = (Fulfilled r, w') →
       status r = 200 →
       provenance (body r) = Some (JStr "database"))
  ∧ (t + 300 * 1000 ≤ now e →
     ∀ k, redisClient.read e k (serve trace (mkWorld table seq ∅)) = None).
Proof.
  intros Ht.
  assert (expiries_within t (serve trace (mkWorld table seq ∅))) as Hinv.
  { apply serve_keeps_expiries; [done|]. intros k en Hk. simpl in Hk.
    by rewrite lookup_empty in Hk. }
  assert (t + 60 * 1000 ≤ now e →
          ∀ k, redisClient.glob "items:*" k = true →
               redisClient.read e k (serve trace (mkWorld table seq ∅)) = None)
    as Hlists.
  { intros Hlate k Hg. apply read_None_of_not_live. intros en Hk.
    destruct (Hinv _ _ Hk) as [_ Hexp]. specialize (Hexp Hg).
    unfold redisClient.live. apply Z.ltb_ge. lia. }
  split.
  - intros Hlate. split; [by apply Hlists|].
    intros query r w' Hrun Hst.
    apply get_items_inv in Hrun
      as [(page & _ & Hhit & _)|[(rows & _ & _ & _ & _ & _ & [= ->] & _)|([= ->] & _)]];
      [|done|done].
    rewrite (Hlists Hlate _ (glob_items_cacheKey _ _)) in Hhit. done.
  - intros Hlate k. apply read_None_of_not_live. intros en Hk.
    destruct (Hinv _ _ Hk) as [Hexp _].
    unfold redisClient.live. apply Z.ltb_ge. lia.
Qed.

Lemma entries_expire_with_their_ttl_witness :
  redisClient.read (all_up 62100) "items:50:0" warm = None.
Proof.
  assert (Forall (λ p : Env * Request, now p.1 ≤ 2100)
            [(all_up 2000, GetItems (mkListQuery None None));
             (all_up 2100, GetItem "1")]) as Ht
    by (repeat constructor; simpl; lia).
  destruct (entries_expire_with_their_ttl [item_A] 2 _ 2100 (all_up 62100) Ht)
    as [Hlists _].
  apply Hlists.
  - simpl. lia.
  - reflexivity.
Defined.

(** X13. The listing after an acknowledged write. Once a create, update
    or delete has been answered 201 or 200, a listing read served at that
    or a later instant by reachable collaborators, with a non-negative limit
    and an offset between 0 and 2^53 (the range in which the number that
    JavaScript computes and sends is the integer itself), is answered from
    the store: [count] is the number of rows of the table as the write left
    it, and [data] is the window that the limit and the offset cut out of
    those rows arranged newest first. *)
Theorem listing_after_acknowledged_write
        (e e' : Env) (rq : Request) (query : ListQuery) (w w' : World) (r : Response) :
  is_write rq = true →
  handle e rq w = (Fulfilled r, w') →
  status r = 200 ∨ status r = 201 →
  now e ≤ now e' →
  get_ok e' = true → pg_ok e' = true → setEx_ok e' = true →
  0 ≤ items_limit query →
  0 ≤ items_offset query ≤ 9007199254740992 →
  ∃ sorted,
    sorted ≡ₚ items w' ∧ newest_first sorted = true
    ∧ (get_items e' query w').1
      = Fulfilled (mkResponse 200
          (JObj (("source", JStr "database")
                 :: page_json (Z.of_nat (length (items w')))
                      (take (Z.to_nat (items_limit query))
                         (drop (Z.to_nat (items_offset query)) sorted))))).
Proof.
  intros Hwrite Hrun Hst Hle Hget Hpg Hset Hl [Ho _].
  exists (pool.order_by_created_at_desc (items w')).
  split_and!; [apply order_by_created_at_desc_perm|apply newest_first_order_by|].
  rewrite get_items_miss; try done.
  apply read_None_of_not_live. intros en Hk.
  eapply live_mono; [done|].
  eapply acknowledged_write_hides_listings; try done.
  apply glob_items_cacheKey.
Qed.

Lemma listing_after_acknowledged_write_witness :
  ∃ sorted,
    sorted ≡ₚ items (post_item (all_up 3000) (mkItemBody (Some "B") None) warm).2
    ∧ newest_first sorted = true
    ∧ (get_items (all_up 4000) (mkListQuery None (Some "1"))
         (post_item (all_up 3000) (mkItemBody (Some "B") None) warm).2).1
      = Fulfilled (mkResponse 200
          (JObj (("source", JStr "database")
                 :: page_json
                      (Z.of_nat
                         (length
                            (items (post_item (all_up 3000)
                                      (mkItemBody (Some "B") None) warm).2)))
                      (take (Z.to_nat (items_limit (mkListQuery None (Some "1"))))
                         (drop (Z.to_nat (items_offset (mkListQuery None (Some "1"))))
                            sorted))))).
Proof.
  apply (listing_after_acknowledged_write (all_up 3000) (all_up 4000)
           (PostItem (mkItemBody (Some "B") None)) (mkListQuery None (Some "1")) warm
           (post_item (all_up 3000) (mkItemBody (Some "B") None) warm).2
           (mkResponse 201 (JObj (item_json (Item.mk 2 "B" None 3000 3000)))));
    solve [reflexivity | right; reflexivity | simpl; lia | vm_compute; discriminate
          | split; vm_compute; discriminate].
Defined.

(** * The Redis client configuration *)

(** X14. The reconnect strategy. Through the tenth retry the delay is a
    hundred milliseconds per retry, so at most one second: the cap of 3000
    milliseconds written in the code is never what is handed back. From the
    eleventh retry on, and only then, the strategy gives up with an error. *)
Theorem reconnect_delay_is_linear_then_gives_up (retries : Z) :
  (retries ≤ 10 → reconnectStrategy retries = RetryAfter (retries * 100))
  ∧ (10 < retries → reconnectStrategy retries = GiveUp "Max retries reached")
  ∧ (∀ ms, reconnectStrategy retries = RetryAfter ms →
           retries ≤ 10 ∧ ms = retries * 100 ∧ ms ≤ 1000 ∧ ms ≠ 3000).
Proof.
  unfold reconnectStrategy. destruct (Z.ltb_spec 10 retries) as [Hgt|Hle].
  - split_and!; [lia|done|done].
  - split_and!; [intros _; f_equal; lia|lia|].
    intros ms [= <-]. lia.
Qed.

Lemma reconnect_delay_is_linear_then_gives_up_witness :
  reconnectStrategy 10 = RetryAfter (10 * 100)
  ∧ reconnectStrategy 11 = GiveUp "Max retries reached".
Proof.
  split.
  - apply (proj1 (reconnect_delay_is_linear_then_gives_up 10)). lia.
  - apply (proj1 (proj2 (reconnect_delay_is_linear_then_gives_up 11))). lia.
Defined.

(** * The authentication middleware *)

Section AuthFacts.

Lemma split_no_space (s : string) :
  Auth.no_space s = true → Auth.split " " s = [s].
Proof.
  induction s as [|c s IH]; [done|]. simpl.
  intros [Hc Hs]%andb_true_iff. apply negb_true_iff in Hc. rewrite Hc.
  by rewrite IH.
Qed.

Lemma split_at_first_space (word rest : string) :
  Auth.no_space word = true →
  Auth.split " " (word +:+ String " " rest) = word :: Auth.split " " rest.
Proof.
  induction word as [|c word IH]; [done|]. simpl.
  intros [Hc Hs]%andb_true_iff. apply negb_true_iff in Hc. rewrite Hc.
  by rewrite IH.
Qed.

(** The token is the second of the pieces separated by single spaces; the
    first piece, the scheme, is not looked at. *)
Lemma token_of_two_words (scheme t : string) :
  Auth.no_space scheme = true → Auth.no_space t = true →
  Auth.token (Some (scheme +:+ String " " t)) = Some t.
Proof.
  intros Hs Ht. unfold Auth.token.
  destruct (scheme +:+ String " " t) eqn:Hh.
  - by destruct scheme.
  - rewrite <- Hh. by rewrite split_at_first_space, split_no_space.
Qed.

Lemma token_of_one_word (h : string) :
  Auth.no_space h = true →
  Auth.token (Some h) = None ∨ Auth.token (Some h) = Some EmptyString.
Proof.
  intros Hh. unfold Auth.token. destruct h as [|c h]; [by right|].
  left. by rewrite split_no_space.
Qed.

End AuthFacts.

(** X15. [authenticateToken]. It calls [next()] only for a request that
    carried a non-empty token which [jwt.verify] accepted, and then
    [req.user] is the decoded payload. A header of two words separated by
    one space is judged by its second word alone, whatever the first word
    is: 403 when the verification throws. A request with no header, or with
    a header of one word, is answered 401 without the verifier being
    consulted. *)
Theorem authenticate_token_outcomes
        (verify : string → string → option Json) (secret : string) (req : Auth.Req) :
  (∀ req', Auth.authenticateToken verify secret req = Auth.Next req' →
           ∃ t decoded,
             Auth.token (Auth.authorization req) = Some t ∧ t ≠ EmptyString
             ∧ verify t secret = Some decoded
             ∧ req' = Auth.mkReq (Auth.authorization req) (Some decoded))
  ∧ (∀ scheme t,
       Auth.authorization req = Some (scheme +:+ String " " t) →
       Auth.no_space scheme = true → Auth.no_space t = true → t ≠ EmptyString →
       Auth.authenticateToken verify secret req
       = match verify t secret with
         | Some decoded => Auth.Next (Auth.mkReq (Auth.authorization req) (Some decoded))
         | None =>
             Auth.Respond (mkResponse 403
                             (JObj [("error", JStr "Invalid token");
                                    ("message", JStr "Token is invalid or expired")]))
         end)
  ∧ (Auth.authorization req = None
     ∨ (∃ h, Auth.authorization req = Some h ∧ Auth.no_space h = true) →
     Auth.authenticateToken verify secret req
     = Auth.Respond (mkResponse 401
                       (JObj [("error", JStr "Access denied");
                              ("message", JStr "No token provided")]))).
Proof.
  split_and!.
  - intros req'. unfold Auth.authenticateToken.
    destruct (Auth.token (Auth.authorization req)) as [[|c t]|]; [done| |done].
    destruct (verify (String c t) secret) as [decoded|] eqn:Hv; [|done].
    intros [= <-]. eauto 10.
  - intros scheme t Hh Hs Ht Hne. unfold Auth.authenticateToken.
    rewrite Hh, token_of_two_words by done. by destruct t.
  - intros [Hh|(h & Hh & Hs)]; unfold Auth.authenticateToken; rewrite Hh; [done|].
    by destruct (token_of_one_word h Hs) as [-> | ->].
Qed.

Lemma authenticate_token_outcomes_witness :
  Auth.authenticateToken (Auth.only "abc" (JObj [("role", JStr "admin")])) "s"
    (Auth.mkReq (Some "Basic abc") None)
  = Auth.Next (Auth.mkReq (Some "Basic abc") (Some (JObj [("role", JStr "admin")])))
  ∧ Auth.authenticateToken (Auth.only "abc" JNull) "s" (Auth.mkReq (Some "Bearer") None)
    = Auth.Respond (mkResponse 401
                      (JObj [("error", JStr "Access denied");
                             ("message", JStr "No token provided")])).
Proof.
  split.
  - apply (proj1 (proj2 (authenticate_token_outcomes
                           (Auth.only "abc" (JObj [("role", JStr "admin")])) "s"
                           (Auth.mkReq (Some "Basic abc") None)))
             "Basic" "abc"); [reflexivity..|discriminate].
  - apply (proj2 (proj2 (authenticate_token_outcomes
                           (Auth.only "abc" JNull) "s"
                           (Auth.mkReq (Some "Bearer") None)))).
    right. exists "Bearer". split; reflexivity.
Defined.

(** X16. [optionalAuth] never answers the request: it always calls
    [next()], with the header untouched, and [req.user] is either what it
    was or the payload of a token that [jwt.verify] accepted. Followed by
    [requireRole], a request that came without user and whose token is
    missing or rejected is therefore answered 401 "Authentication
    required", not 403. *)
Theorem optional_auth_never_rejects
        (verify : string → string → option Json) (secret : string) (req : Auth.Req) :
  (∃ req',
     Auth.optionalAuth verify secret req = Auth.Next req'
     ∧ Auth.authorization req' = Auth.authorization req
     ∧ (req' = req
        ∨ ∃ t decoded, Auth.token (Auth.authorization req) = Some t
                       ∧ t ≠ EmptyString
                       ∧ verify t secret = Some decoded
                       ∧ Auth.user req' = Some decoded))
  ∧ (∀ roles,
       Auth.user req = None →
       (∀ t, Auth.token (Auth.authorization req) = Some t → verify t secret = None) →
       Auth.chain (Auth.optionalAuth verify secret) (Auth.requireRole roles) req
       = Auth.Respond (mkResponse 401
                         (JObj [("error", JStr "Access denied");
                                ("message", JStr "Authentication required")]))).
Proof.
  split.
  - unfold Auth.optionalAuth.
    destruct (Auth.token (Auth.authorization req)) as [[|c t]|] eqn:Ht;
      [eauto..| |eauto].
    destruct (verify (String c t) secret) as [decoded|] eqn:Hv; [|eauto].
    eexists. split_and!; [done..|]. right. exists (String c t), decoded. done.
  - intros roles Huser Hrej. unfold Auth.chain, Auth.optionalAuth.
    destruct (Auth.token (Auth.authorization req)) as [[|c t]|] eqn:Ht;
      [| rewrite (Hrej _ eq_refl) |];
      unfold Auth.requireRole; by rewrite Huser.
Qed.

Lemma optional_auth_never_rejects_witness :
  Auth.chain (Auth.optionalAuth (Auth.only "abc" JNull) "s") (Auth.requireRole ["admin"])
    (Auth.mkReq (Some "Bearer xyz") None)
  = Auth.Respond (mkResponse 401
                    (JObj [("error", JStr "Access denied");
                           ("message", JStr "Authentication required")])).
Proof.
  apply (proj2 (optional_auth_never_rejects (Auth.only "abc" JNull) "s"
                  (Auth.mkReq (Some "Bearer xyz") None))).
  - reflexivity.
  - intros t Ht. vm_compute in Ht. injection Ht as <-. reflexivity.
Defined.

(** X17. [authenticateToken] followed by [requireRole(...roles)] lets a
    request through exactly when its token is accepted by [jwt.verify] and
    decodes to an object whose [role] is one of the listed names; the
    request passed on carries that payload as [req.user]. With no role
    listed, nothing gets through. *)
Theorem role_gate_passes_listed_roles_only
        (verify : string → string → option Json) (secret : string)
        (roles : list string) (req req' : Auth.Req) :
  (Auth.chain (Auth.authenticateToken verify secret) (Auth.requireRole roles) req
   = Auth.Next req'
   ↔ ∃ t payload name,
       Auth.token (Auth.authorization req) = Some t ∧ t ≠ EmptyString
       ∧ verify t secret = Some (JObj payload)
       ∧ obj_get "role" payload = Some (JStr name) ∧ name ∈ roles
       ∧ req' = Auth.mkReq (Auth.authorization req) (Some (JObj payload)))
  ∧ (roles = [] →
     Auth.chain (Auth.authenticateToken verify secret) (Auth.requireRole roles) req
     ≠ Auth.Next req').
Proof.
  assert (Auth.chain (Auth.authenticateToken verify secret) (Auth.requireRole roles) req
          = Auth.Next req'
          ↔ ∃ t payload name,
              Auth.token (Auth.authorization req) = Some t ∧ t ≠ EmptyString
              ∧ verify t secret = Some (JObj payload)
              ∧ obj_get "role" payload = Some (JStr name) ∧ name ∈ roles
              ∧ req' = Auth.mkReq (Auth.authorization req) (Some (JObj payload)))
    as Hiff.
  { unfold Auth.chain, Auth.authenticateToken. split.
    - destruct (Auth.token (Auth.authorization req)) as [[|c t]|] eqn:Ht; [done| |done].
      destruct (verify (String c t) secret) as [decoded|] eqn:Hv; [|done].
      unfold Auth.requireRole. simpl.
      destruct (Auth.truthy decoded) eqn:Htruthy; [|done].
      destruct (Auth.includes roles (Auth.role decoded)) eqn:Hinc; [|done].
      intros [= <-]. unfold Auth.includes in Hinc.
      destruct (Auth.role decoded) as [[| | |name| |]|] eqn:Hrole; try done.
      apply bool_decide_eq_true in Hinc.
      destruct decoded as [| | | | |payload]; try done.
      exists (String c t), payload, name. split_and!; done.
    - intros (t & payload & name & Ht & Hne & Hv & Hrole & Hin & ->).
      rewrite Ht. destruct t as [|c t]; [done|]. rewrite Hv.
      unfold Auth.requireRole, Auth.includes. simpl. rewrite Hrole.
      by rewrite bool_decide_eq_true_2. }
  split; [exact Hiff|].
  intros -> Hpass. apply Hiff in Hpass as (_ & _ & name & _ & _ & _ & _ & Hin & _).
  by apply elem_of_nil in Hin.
Qed.

Lemma role_gate_passes_listed_roles_only_witness :
  Auth.chain (Auth.authenticateToken (Auth.only "abc" (JObj [("role", JStr "admin")])) "s")
    (Auth.requireRole ["user"; "admin"]) (Auth.mkReq (Some "Bearer abc") None)
  = Auth.Next (Auth.mkReq (Some "Bearer abc") (Some (JObj [("role", JStr "admin")]))).
Proof.
  apply (proj1 (role_gate_passes_listed_roles_only
                  (Auth.only "abc" (JObj [("role", JStr "admin")])) "s"
                  ["user"; "admin"] (Auth.mkReq (Some "Bearer abc") None) _)).
  exists "abc", [("role", JStr "admin")], "admin".
  split_and!; try reflexivity; [discriminate|].
  right. left.
Defined.

(** * The probes *)

(** X18. [/health] answers 200 exactly when both the store query and
    the Redis ping come back, and 503 otherwise; the [status] of its body
    is [healthy] in the first case and [degraded] in the second. Redis is
    reported [connected] exactly when the ping came back with [PONG]: a
    ping that comes back with anything else is reported [disconnected]
    while the probe still answers 200. The reported uptime is the whole
    number of seconds since the start. *)
Theorem health_is_200_iff_both_answer
        (startTime : Z) (version : string) (p : Probes.Probe) :
  (status (Probes.health startTime version p) = 200
   ∨ status (Probes.health startTime version p) = 503)
  ∧ (status (Probes.health startTime version p) = 200
     ↔ (∃ u, Probes.select p = Fulfilled u) ∧ (∃ pong, Probes.ping p = Fulfilled pong))
  ∧ (status (Probes.health startTime version p) = 200
     ↔ ∃ fields, body (Probes.health startTime version p)
                 = JObj (("status", JStr "healthy") :: fields))
  ∧ (Probes.service "redis" (Probes.health startTime version p) = Some (JStr "connected")
     ↔ Probes.ping p = Fulfilled "PONG")
  ∧ (Probes.service "postgres" (Probes.health startTime version p)
     = Some (JStr "connected")
     ↔ ∃ u, Probes.select p = Fulfilled u)
  ∧ (∃ uptime,
       obj_get "uptime"
         match body (Probes.health startTime version p) with
         | JObj o => o
         | _ => []
         end = Some (JNum uptime)
       ∧ uptime * 1000 ≤ Probes.at_ p - startTime < (uptime + 1) * 1000).
Proof.
  unfold Probes.health, Probes.service.
  destruct (Probes.select p) as [[]|err1]; destruct (Probes.ping p) as [pong|err2];
    simpl.
  all: split_and!; try (by left); try (by right).
  all: try (split; [intros ?; eauto; done|intros ?; done]).
  all: try (split; [done|by intros [(? & ?) (? & ?)]]).
  all: try (split; [done|by intros (? & [= ?])]).
  all: try (split; [done|by intros (? & ?)]).
  all: try (eexists; split; [reflexivity|];
            pose proof (Z.div_mod (Probes.at_ p - startTime) 1000);
            pose proof (Z.mod_pos_bound (Probes.at_ p - startTime) 1000); lia).
  all: try (destruct (String.eqb_spec pong "PONG") as [->|Hne];
            split; [done|done|intros [= ?]; done|intros [= ?]; done]; fail).
  all: destruct (String.eqb_spec pong "PONG") as [->|Hne]; split; try done;
    intros [= ?]; done.
Qed.

Lemma health_is_200_iff_both_answer_witness :
  status (Probes.health 0 "2.0.0"
            (Probes.mkProbe 5000 (Fulfilled ()) (Fulfilled "LOADING"))) = 200.
Proof.
  apply (proj1 (proj2 (health_is_200_iff_both_answer 0 "2.0.0"
                         (Probes.mkProbe 5000 (Fulfilled ()) (Fulfilled "LOADING"))))).
  split; eexists; reflexivity.
Defined.

(** X19. [/ready] answers 200 with [ready: true] exactly when the store
    query and then the Redis ping both come back; otherwise it answers 503
    with [ready: false] and the message of the first call that failed: when
    the store query fails, its message is reported whatever the ping would
    have done. *)
Theorem ready_is_200_iff_both_answer (p : Probes.Probe) :
  (Probes.ready p = mkResponse 200 (JObj [("ready", JBool true)])
   ↔ (∃ u, Probes.select p = Fulfilled u) ∧ (∃ pong, Probes.ping p = Fulfilled pong))
  ∧ (∀ err, Probes.select p = Rejected err →
            Probes.ready p
            = mkResponse 503 (JObj [("ready", JBool false); ("error", JStr err)]))
  ∧ (∀ u err, Probes.select p = Fulfilled u → Probes.ping p = Rejected err →
              Probes.ready p
              = mkResponse 503 (JObj [("ready", JBool false); ("error", JStr err)]))
  ∧ (status (Probes.ready p) = 200 ∨ status (Probes.ready p) = 503).
Proof.
  unfold Probes.ready.
  destruct (Probes.select p) as [[]|err1]; destruct (Probes.ping p) as [pong|err2];
    split_and!; try (by left); try (by right); try done.
  all: try (by intros ? [= ->]).
  all: try (by intros ? ? _ [= ->]).
  all: split; try done; try eauto; by intros [(? & ?) (? & ?)].
Qed.

Lemma ready_is_200_iff_both_answer_witness :
  Probes.ready (Probes.mkProbe 5000 (Rejected "connect ECONNREFUSED")
                  (Rejected "The client is closed"))
  = mkResponse 503 (JObj [("ready", JBool false);
                          ("error", JStr "connect ECONNREFUSED")]).
Proof.
  apply (proj1 (proj2 (ready_is_200_iff_both_answer
                         (Probes.mkProbe 5000 (Rejected "connect ECONNREFUSED")
                            (Rejected "The client is closed"))))).
  reflexivity.
Defined.

(** * The single-file application *)

(** X20. Its delete route has no not-found answer. Whenever the store
    answers, the id converts to an integer and Redis is either closed or
    deletes the key, the request is answered 200 "Item deleted", whether a
    row had that id or not: the table afterwards is the table without the
    rows of that id, so unchanged when there was none. With Redis open the
    cached listing is gone afterwards; with Redis closed it is left in
    place. *)
Theorem railway_delete_is_always_acknowledged
        (int4_input : string → option Z) (e : Railway.Env) (id : string) (n : Z)
        (w : Railway.World) :
  Railway.pg_ok e = true →
  int4_input id = Some n →
  Railway.redis_open e = false ∨ Railway.del_ok e = true →
  ∃ w',
    Railway.delete_item int4_input e id w
    = (mkResponse 200 (JObj [("message", JStr "Item deleted")]), w')
    ∧ Railway.items w' = filter (λ r, Item.id r ≠ n) (Railway.items w)
    ∧ ((∀ row, row ∈ Railway.items w → Item.id row ≠ n) →
       Railway.items w' = Railway.items w)
    ∧ Railway.cached_items w'
      = if Railway.redis_open e then None else Railway.cached_items w.
Proof.
  intros Hpg Hn Hredis. unfold Railway.delete_item. rewrite Hpg, Hn. simpl.
  destruct (Railway.redis_open e) eqn:Hopen.
  - destruct Hredis as [?|Hdel]; [done|]. rewrite Hdel.
    eexists. split_and!; try reflexivity.
    intros Hnone. simpl. apply filter_unmatched. by apply filter_id_nil.
  - eexists. split_and!; try reflexivity.
    intros Hnone. simpl. apply filter_unmatched. by apply filter_id_nil.
Qed.

Lemma railway_delete_is_always_acknowledged_witness :
  ∃ w',
    Railway.delete_item pool.int4_in
      (Railway.up 2000) "7"
      (Railway.mkWorld [item_A] (Some (Railway.mkCached [item_A] 9000)))
    = (mkResponse 200 (JObj [("message", JStr "Item deleted")]), w')
    ∧ Railway.items w'
      = filter (λ r, Item.id r ≠ 7)
          (Railway.items (Railway.mkWorld [item_A] (Some (Railway.mkCached [item_A] 9000))))
    ∧ ((∀ row, row ∈ Railway.items
                       (Railway.mkWorld [item_A] (Some (Railway.mkCached [item_A] 9000))) →
               Item.id row ≠ 7) →
       Railway.items w'
       = Railway.items (Railway.mkWorld [item_A] (Some (Railway.mkCached [item_A] 9000))))
    ∧ Railway.cached_items w'
      = if Railway.redis_open (Railway.up 2000)
        then None
        else Railway.cached_items
               (Railway.mkWorld [item_A] (Some (Railway.mkCached [item_A] 9000))).
Proof.
  apply (railway_delete_is_always_acknowledged pool.int4_in
           (Railway.up 2000) "7" 7).
  - reflexivity.
  - reflexivity.
  - right. reflexivity.
Defined.

(** X21. Its listing has two shapes. Answered from the store, with Redis
    open and answering, the body has [source: database], a [count] that is
    the number of rows of the table, and all the rows, newest first, with
    no limit; the rows are cached for a minute. The same request repeated
    within that minute is answered from the cache with the same rows, and
    its body has no [count] property. *)
Theorem railway_listing_database_then_cache
        (e1 e2 : Railway.Env) (w : Railway.World) :
  Railway.redis_open e1 = true → Railway.get_ok e1 = true →
  Railway.setEx_ok e1 = true → Railway.pg_ok e1 = true →
  Railway.read e1 w = None →
  Railway.redis_open e2 = true → Railway.get_ok e2 = true →
  Railway.now e2 < Railway.now e1 + 60 * 1000 →
  ∃ data w1,
    data ≡ₚ Railway.items w ∧ newest_first data = true
    ∧ Railway.get_items e1 w
      = (mkResponse 200
           (JObj [("source", JStr "database");
                  ("count", JNum (Z.of_nat (length (Railway.items w))));
                  ("data", Railway.rows_json data)]), w1)
    ∧ Railway.get_items e2 w1
      = (mkResponse 200
           (JObj [("source", JStr "cache"); ("data", Railway.rows_json data)]), w1)
    ∧ obj_get "count" [("source", JStr "cache"); ("data", Railway.rows_json data)]
      = None.
Proof.
  intros Hopen Hget Hset Hpg Hmiss Hopen2 Hget2 Hlt.
  exists (pool.order_by_created_at_desc (Railway.items w)). eexists.
  split_and!.
  - apply order_by_created_at_desc_perm.
  - apply newest_first_order_by.
  - unfold Railway.get_items, Railway.list_from_store.
    rewrite Hopen, Hget, Hmiss, Hpg, Hset. simpl.
    by rewrite (Permutation_length (order_by_created_at_desc_perm _)).
  - unfold Railway.get_items, Railway.read. rewrite Hopen2, Hget2. simpl.
    by apply Z.ltb_lt in Hlt as ->.
  - reflexivity.
Qed.

Lemma railway_listing_database_then_cache_witness :
  ∃ data w1,
    data ≡ₚ Railway.items (Railway.mkWorld [item_A] None) ∧ newest_first data = true
    ∧ Railway.get_items (Railway.up 2000)
        (Railway.mkWorld [item_A] None)
      = (mkResponse 200
           (JObj [("source", JStr "database");
                  ("count",
                   JNum (Z.of_nat (length (Railway.items (Railway.mkWorld [item_A] None)))));
                  ("data", Railway.rows_json data)]), w1)
    ∧ Railway.get_items (Railway.up 3000) w1
      = (mkResponse 200
           (JObj [("source", JStr "cache"); ("data", Railway.rows_json data)]), w1)
    ∧ obj_get "count" [("source", JStr "cache"); ("data", Railway.rows_json data)]
      = None.
Proof.
  apply (railway_listing_database_then_cache
           (Railway.up 2000)
           (Railway.up 3000));
    reflexivity.
Defined.

(** X22. Without Redis. While the client is missing or closed, the
    listing is answered from the store whenever the store answers, whatever
    the Redis calls would have done: [count] is the number of rows of the
    table and [data] holds all of them, newest first. When the store query
    fails the listing is answered 500 with the message of that error. Neither
    the listing nor a delete touches the cached listing: what was cached
    before Redis went away is still there, and is what a listing returns,
    deleted rows included, when Redis is open again within its minute. *)
Theorem railway_without_redis
        (int4_input : string → option Z) (e : Railway.Env) (w : Railway.World) :
  Railway.redis_open e = false →
  (Railway.pg_ok e = true →
   ∃ data,
     data ≡ₚ Railway.items w ∧ newest_first data = true
     ∧ Railway.get_items e w
       = (mkResponse 200
            (JObj [("source", JStr "database");
                   ("count", JNum (Z.of_nat (length (Railway.items w))));
                   ("data", Railway.rows_json data)]), w))
  ∧ (Railway.pg_ok e = false →
     Railway.get_items e w
     = (mkResponse 500 (JObj [("error", JStr (Railway.pg_error e))]), w))
  ∧ (∀ id, Railway.cached_items (Railway.delete_item int4_input e id w).2
           = Railway.cached_items w)
  ∧ (∀ id n e' stale,
       Railway.pg_ok e = true → int4_input id = Some n →
       Railway.redis_open e' = true → Railway.get_ok e' = true →
       Railway.read e' w = Some stale →
       Railway.items (Railway.delete_item int4_input e id w).2
       = filter (λ r, Item.id r ≠ n) (Railway.items w)
       ∧ (Railway.get_items e' (Railway.delete_item int4_input e id w).2).1
         = mkResponse 200
             (JObj [("source", JStr "cache"); ("data", Railway.rows_json stale)])).
Proof.
  intros Hclosed. split_and!.
  - intros Hpg. exists (pool.order_by_created_at_desc (Railway.items w)).
    split_and!; [apply order_by_created_at_desc_perm|apply newest_first_order_by|].
    unfold Railway.get_items, Railway.list_from_store.
    rewrite Hclosed, Hpg. simpl.
    by rewrite (Permutation_length (order_by_created_at_desc_perm _)).
  - intros Hpg. unfold Railway.get_items, Railway.list_from_store.
    by rewrite Hclosed, Hpg.
  - intros id. unfold Railway.delete_item. rewrite Hclosed.
    destruct (negb (Railway.pg_ok e)); [done|]. by destruct (int4_input id).
  - intros id n e' stale Hpg Hn Hopen' Hget' Hread.
    unfold Railway.delete_item. rewrite Hclosed, Hpg, Hn. simpl.
    split; [done|].
    unfold Railway.get_items. rewrite Hopen', Hget'.
    unfold Railway.read in *. simpl. by rewrite Hread.
Qed.

Lemma railway_without_redis_witness :
  Railway.get_items (Railway.store_down 3000)
    (Railway.mkWorld [item_A] (Some (Railway.mkCached [item_A] 9000)))
  = (mkResponse 500 (JObj [("error", JStr "connect ECONNREFUSED 127.0.0.1:5432")]),
     Railway.mkWorld [item_A] (Some (Railway.mkCached [item_A] 9000)))
  ∧ Railway.items
      (Railway.delete_item pool.int4_in (Railway.closed 3000) "1"
         (Railway.mkWorld [item_A] (Some (Railway.mkCached [item_A] 9000)))).2
    = filter (λ r, Item.id r ≠ 1) [item_A]
  ∧ (Railway.get_items (Railway.up 4000)
       (Railway.delete_item pool.int4_in (Railway.closed 3000) "1"
          (Railway.mkWorld [item_A] (Some (Railway.mkCached [item_A] 9000)))).2).1
    = mkResponse 200
        (JObj [("source", JStr "cache"); ("data", Railway.rows_json [item_A])]).
Proof.
  split.
  - apply (proj1 (proj2 (railway_without_redis pool.int4_in (Railway.store_down 3000)
                           (Railway.mkWorld [item_A] (Some (Railway.mkCached [item_A] 9000)))
                           eq_refl))).
    reflexivity.
  - apply (proj2 (proj2 (proj2
             (railway_without_redis pool.int4_in (Railway.closed 3000)
                (Railway.mkWorld [item_A] (Some (Railway.mkCached [item_A] 9000)))
                eq_refl))) "1" 1);
      reflexivity.
Defined.

(** X23. Its health probe depends on the store alone: it answers 200 with
    status [healthy] exactly when the store query comes back, whether Redis
    is connected, disconnected or not configured; a failing ping is
    reported under [services] and nowhere else. *)
Theorem railway_health_depends_on_store_only (startTime : Z) (e : Railway.Env) :
  (status (Railway.health startTime e) = 200 ↔ Railway.pg_ok e = true)
  ∧ (status (Railway.health startTime e) = 503 ↔ Railway.pg_ok e = false)
  ∧ (∀ e', Railway.pg_ok e' = Railway.pg_ok e →
           status (Railway.health startTime e') = status (Railway.health startTime e))
  ∧ (Probes.service "redis" (Railway.health startTime e) = Some (JStr "disconnected")
     ↔ Railway.redis_open e = true ∧ Railway.ping_ok e = false).
Proof.
  unfold Railway.health, Probes.service. simpl. split_and!.
  - by destruct (Railway.pg_ok e).
  - by destruct (Railway.pg_ok e).
  - by intros e' ->.
  - destruct (Railway.redis_open e), (Railway.ping_ok e); simpl;
      split; try done; by intros [? ?].
Qed.

Lemma railway_health_depends_on_store_only_witness :
  status (Railway.health 0 (Railway.no_ping 5000)) = 200.
Proof.
  apply (proj1 (railway_health_depends_on_store_only 0
                  (Railway.no_ping 5000))).
  reflexivity.
Defined.
